(** * BrainPrint-Cerebellum: surface catalogues and lateral asymmetry

    A shallow embedding of [brainprint/asymmetry.py] and
    [brainprint/surfaces.py].

    - Python dictionaries are stdpp [gmap]s keyed by [string]; dictionary
      literals whose iteration order matters are association lists.
    - numpy float64 values are Rocq's primitive binary64 [float]s;
      [np.isnan] is [PrimFloat.is_nan].
    - Python code that prints, raises or runs external commands is a
      state-and-exception computation [io S A]: the state survives a raise,
      the rest of the computation does not run.
    - Collaborators outside the repository ([lapy], [pathlib], [uuid], the
      FreeSurfer binaries) are parameters. *)

From Stdlib Require Import Floats.PrimFloat.
From stdpp Require Import gmap strings list fin_maps pretty.

Open Scope string_scope.

(** ** Python results and effects *)

Inductive exception : Type :=
| KeyError (key : string)
| RuntimeError (message : string).

Inductive result (A : Type) : Type :=
| Ok (a : A)
| Raise (e : exception).

Arguments Ok {A} a.
Arguments Raise {A} e.

Definition io (S A : Type) : Type := S -> result A * S.

Definition ret {S A} (a : A) : io S A := fun s => (Ok a, s).

Definition raise {S A} (e : exception) : io S A := fun s => (Raise e, s).

Definition bind {S A B} (m : io S A) (k : A -> io S B) : io S B :=
  fun s =>
    match m s with
    | (Ok a, s') => k a s'
    | (Raise e, s') => (Raise e, s')
    end.

Declare Scope io_scope.
Delimit Scope io_scope with io.
Notation "x <- m ;; k" := (bind m (fun x => k))
  (at level 100, m at next level, right associativity) : io_scope.
Notation "m ;;; k" := (bind m (fun _ => k))
  (at level 100, right associativity) : io_scope.

(** [for x in xs: acc = body(acc, x)], left to right, stopping at a raise. *)
Fixpoint for_each {S A B} (body : B -> A -> io S B) (xs : list A) (acc : B)
  : io S B :=
  match xs with
  | [] => ret acc
  | x :: xs' => (acc' <- body acc x ;; for_each body xs' acc')%io
  end.

(** [d[k]]: a missing key raises [KeyError(k)]. *)
Definition getitem {S V} (d : gmap string V) (k : string) : io S V :=
  match d !! k with
  | Some v => ret v
  | None => raise (KeyError k)
  end.

(** [sep.join(parts)]. *)
Fixpoint join (sep : string) (parts : list string) : string :=
  match parts with
  | [] => EmptyString
  | [p] => p
  | p :: rest => p +:+ sep +:+ join sep rest
  end.

(** [needle in hay] on strings. *)
Fixpoint contains (needle hay : string) : bool :=
  String.prefix needle hay
  || match hay with
     | EmptyString => false
     | String _ hay' => contains needle hay'
     end.

(** ** asymmetry.py *)

Module Asymmetry.

Definition structures_left_right : list (string * string) :=
  [ ("Left-Striatum", "Right-Striatum");
    ("Left-Lateral-Ventricle", "Right-Lateral-Ventricle");
    ("Left-Cerebellum-White-Matter", "Right-Cerebellum-White-Matter");
    ("Left-Cerebellum-Cortex", "Right-Cerebellum-Cortex");
    ("Left-Thalamus-Proper", "Right-Thalamus-Proper");
    ("Left-Caudate", "Right-Caudate");
    ("Left-Putamen", "Right-Putamen");
    ("Left-Pallidum", "Right-Pallidum");
    ("Left-Hippocampus", "Right-Hippocampus");
    ("Left-Amygdala", "Right-Amygdala");
    ("Left-Accumbens-area", "Right-Accumbens-area");
    ("Left-VentralDC", "Right-VentralDC") ].

Definition structures_left_right_cerebellum : list (string * string) :=
  [ ("Cbm_Left_I_IV", "Cbm_Right_I_IV");
    ("Cbm_Left_V", "Cbm_Right_V");
    ("Cbm_Left_VI", "Cbm_Right_VI");
    ("Cbm_Left_CrusI", "Cbm_Right_CrusI");
    ("Cbm_Left_CrusII", "Cbm_Right_CrusII");
    ("Cbm_Left_VIIb", "Cbm_Right_VIIb");
    ("Cbm_Left_VIIIa", "Cbm_Right_VIIIa");
    ("Cbm_Left_VIIIb", "Cbm_Right_VIIIb");
    ("Cbm_Left_IX", "Cbm_Right_IX");
    ("Cbm_Left_X", "Cbm_Right_X") ].

Definition cortex_2d_left_right : list (string * string) :=
  [ ("lh-white-2d", "rh-white-2d");
    ("lh-pial-2d", "rh-pial-2d") ].

(** The list [structures] after the two conditional [+=]: subcortical pairs,
    then the cortical pairs, then the cerebellar pairs. *)
Definition structures (skip_cortex skip_cerebellum : bool)
  : list (string * string) :=
  let structures := structures_left_right in
  let structures :=
    if negb skip_cortex then (structures ++ cortex_2d_left_right)%list
    else structures in
  let structures :=
    if negb skip_cerebellum
    then (structures ++ structures_left_right_cerebellum)%list
    else structures in
  structures.

(** [np.isnan(a).any()]. *)
Definition isnan_any (a : list float) : bool := existsb is_nan a.

(** [print(message)]: the state is the lines written to standard output. *)
Definition print (message : string) : io (list string) unit :=
  fun out => (Ok tt, (out ++ [message])%list).

Section Scorer.

(** [lapy.shapedna.compute_distance(ev1, ev2, dist=...)], the external
    distance: any function of the two trimmed spectra and the metric. *)
Variable compute_distance : list float -> list float -> string -> float.

Variable eigenvalues : gmap string (list float).
Variable distance : string.

(** One iteration of the loop at lines 87-108, on the dictionary
    [distances] built so far. *)
Definition record_pair (distances : gmap string float)
    (pair : string * string) : io (list string) (gmap string float) :=
  let '(left_label, right_label) := pair in
  (left <- getitem eigenvalues left_label ;;
   right <- getitem eigenvalues right_label ;;
   let left_eigenvalues := drop 2 left in
   let right_eigenvalues := drop 2 right in
   let has_nan :=
     isnan_any left_eigenvalues || isnan_any right_eigenvalues in
   let key := left_label +:+ "_" +:+ right_label in
   if has_nan then
     let message :=
       "NaNs found for " +:+ left_label +:+ " or " +:+ right_label +:+ ", "
       +:+ "skipping asymmetry computation..." in
     (print message ;;;
      ret (<[key := nan]> distances))
   else
     ret (<[key :=
              compute_distance left_eigenvalues right_eigenvalues distance]>
            distances))%io.

Definition compute_asymmetry (skip_cortex skip_cerebellum : bool)
  : io (list string) (gmap string float) :=
  for_each record_pair (structures skip_cortex skip_cerebellum) ∅.

End Scorer.

End Asymmetry.

(** ** surfaces.py *)

Module Surfaces.

(** What the module needs from outside: [pathlib] paths, the file system,
    [uuid.uuid4], the shell, and [lapy.TriaMesh]. Each call acts on the
    outside [World]; the fallible ones return or raise. *)
Class Platform : Type := {
  Path : Type;
  World : Type;
  Mesh : Type;
  (** [path / child] *)
  joinpath : Path -> string -> Path;
  (** [str(path)], which is what [str.format] and f-strings insert *)
  path_str : Path -> string;
  (** [path.is_file()] *)
  is_file : Path -> World -> bool;
  (** [str(uuid.uuid4())] *)
  uuid4 : World -> string * World;
  (** Modelled from the spec: [run_shell_command] is imported from
      [brainprint/utils/utils.py], which is not among the sources. Each
      extraction step is "an external command invocation", and "any external
      command returning non-zero aborts the whole extraction with a fatal
      error": the call runs the command line in the world and returns, or
      raises. Which command lines fail is left to the platform. *)
  run_shell_command : string -> World -> result unit * World;
  (** [TriaMesh.read_fssurf(source)] *)
  read_fssurf : Path -> World -> result Mesh * World;
  (** [mesh.write_vtk(destination)] *)
  write_vtk : Mesh -> Path -> World -> result unit * World;
}.

Section Builders.

Context {P : Platform}.

Local Notation "p </> child" := (joinpath p child)
  (at level 40, left associativity).

(** The calls out of the repository, as they are observed from outside. *)
Inductive call : Type :=
| Uuid4
| IsFile (path : Path)
| Shell (command : string)
| ReadFssurf (source : Path)
| WriteVtk (destination : Path).

(** A run's state: the outside world, and the calls made so far, oldest
    first, each with the exception it raised if any. *)
Record state : Type := State {
  world : World;
  calls : list (call * option exception);
}.

Definition raised {A} (r : result A) : option exception :=
  match r with
  | Ok _ => None
  | Raise e => Some e
  end.

Definition external {A} (c : call) (f : World -> result A * World)
  : io state A :=
  fun s =>
    let '(r, w) := f (world s) in
    (r, State w (calls s ++ [(c, raised r)])%list).

Definition shell (command : string) : io state unit :=
  external (Shell command) (run_shell_command command).

Definition fresh_uuid : io state string :=
  fun s =>
    let '(u, w) := uuid4 (world s) in
    (Ok u, State w (calls s ++ [(Uuid4, None)])%list).

Definition path_is_file (p : Path) : io state bool :=
  fun s =>
    (Ok (is_file p (world s)),
     State (world s) (calls s ++ [(IsFile p, None)])%list).

Definition create_cereb_surface (subject_dir destination : Path)
    (indices : list string) : io state Path :=
  (let cerebseg_path := subject_dir </> "mri/cerebellum.CerebNet.nii.gz" in
   let norm_path := subject_dir </> "mri/norm.mgz" in
   uid <- fresh_uuid ;;
   let temp_name := "temp/cereb." +:+ uid in
   let indices_mask := destination </> (temp_name +:+ ".mgz") in
   let binarize_command :=
     "mri_binarize --i " +:+ path_str cerebseg_path
     +:+ " --match " +:+ join " " indices
     +:+ " --o " +:+ path_str indices_mask in
   shell binarize_command ;;;
   let label_value := "1" in
   norm_exists <- path_is_file norm_path ;;
   (if norm_exists : bool then
      let pretess_command :=
        "mri_pretess " +:+ path_str indices_mask +:+ " " +:+ label_value
        +:+ " " +:+ path_str norm_path +:+ " " +:+ path_str indices_mask in
      shell pretess_command
    else ret tt) ;;;
   let surface_name := temp_name +:+ ".surf" in
   let surface_path := destination </> surface_name in
   let extraction_command :=
     "mri_mc " +:+ path_str indices_mask +:+ " " +:+ label_value
     +:+ " " +:+ path_str surface_path in
   shell extraction_command ;;;
   let relative_path :=
     "surfaces/cereb.final." +:+ join "_" indices +:+ ".vtk" in
   let conversion_destination := destination </> relative_path in
   let conversion_command :=
     "mris_convert " +:+ path_str surface_path
     +:+ " " +:+ path_str conversion_destination in
   shell conversion_command ;;;
   ret conversion_destination)%io.

Definition create_aseg_surface (subject_dir destination : Path)
    (indices : list string) : io state Path :=
  (let aseg_path := subject_dir </> "mri/aseg.mgz" in
   let norm_path := subject_dir </> "mri/norm.mgz" in
   uid <- fresh_uuid ;;
   let temp_name := "temp/aseg." +:+ uid in
   let indices_mask := destination </> (temp_name +:+ ".mgz") in
   let binarize_command :=
     "mri_binarize --i " +:+ path_str aseg_path
     +:+ " --match " +:+ join " " indices
     +:+ " --o " +:+ path_str indices_mask in
   shell binarize_command ;;;
   let label_value := "1" in
   norm_exists <- path_is_file norm_path ;;
   (if norm_exists : bool then
      let pretess_command :=
        "mri_pretess " +:+ path_str indices_mask +:+ " " +:+ label_value
        +:+ " " +:+ path_str norm_path +:+ " " +:+ path_str indices_mask in
      shell pretess_command
    else ret tt) ;;;
   let surface_name := temp_name +:+ ".surf" in
   let surface_path := destination </> surface_name in
   let extraction_command :=
     "mri_mc " +:+ path_str indices_mask +:+ " " +:+ label_value
     +:+ " " +:+ path_str surface_path in
   shell extraction_command ;;;
   let relative_path :=
     "surfaces/aseg.final." +:+ join "_" indices +:+ ".vtk" in
   let conversion_destination := destination </> relative_path in
   let conversion_command :=
     "mris_convert " +:+ path_str surface_path
     +:+ " " +:+ path_str conversion_destination in
   shell conversion_command ;;;
   ret conversion_destination)%io.

(** The dictionary literals, in the order [.items()] yields them. *)
Definition cereb_labels : list (string * list string) :=
  [ ("Cbm_Left_I_IV", ["601"]);
    ("Cbm_Right_I_IV", ["602"]);
    ("Cbm_Left_V", ["603"]);
    ("Cbm_Right_V", ["604"]);
    ("Cbm_Left_VI", ["605"]);
    ("Cbm_Vermis_VI", ["606"]);
    ("Cbm_Right_VI", ["607"]);
    ("Cbm_Left_CrusI", ["608"]);
    ("Cbm_Right_CrusI", ["610"]);
    ("Cbm_Left_CrusII", ["611"]);
    ("Cbm_Right_CrusII", ["613"]);
    ("Cbm_Left_VIIb", ["614"]);
    ("Cbm_Right_VIIb", ["616"]);
    ("Cbm_Left_VIIIa", ["617"]);
    ("Cbm_Right_VIIIa", ["619"]);
    ("Cbm_Left_VIIIb", ["620"]);
    ("Cbm_Right_VIIIb", ["622"]);
    ("Cbm_Left_IX", ["623"]);
    ("Cbm_Vermis_IX", ["624"]);
    ("Cbm_Right_IX", ["625"]);
    ("Cbm_Left_X", ["626"]);
    ("Cbm_Vermis_X", ["627"]);
    ("Cbm_Right_X", ["628"]);
    ("Cbm_Vermis_VII", ["630"]);
    ("Cbm_Vermis_VIII", ["631"]);
    ("Cbm_Vermis", ["631"; "630"; "627"; "624"; "606"]) ].

Definition aseg_labels : list (string * list string) :=
  [ ("CorpusCallosum", ["251"; "252"; "253"; "254"; "255"]);
    ("Cerebellum", ["7"; "8"; "16"; "46"; "47"]);
    ("Ventricles", ["4"; "5"; "14"; "24"; "31"; "43"; "44"; "63"]);
    ("3rd-Ventricle", ["14"; "24"]);
    ("4th-Ventricle", ["15"]);
    ("Brain-Stem", ["16"]);
    ("Left-Striatum", ["11"; "12"; "26"]);
    ("Left-Lateral-Ventricle", ["4"; "5"; "31"]);
    ("Left-Cerebellum-White-Matter", ["7"]);
    ("Left-Cerebellum-Cortex", ["8"]);
    ("Left-Thalamus-Proper", ["10"]);
    ("Left-Caudate", ["11"]);
    ("Left-Putamen", ["12"]);
    ("Left-Pallidum", ["13"]);
    ("Left-Hippocampus", ["17"]);
    ("Left-Amygdala", ["18"]);
    ("Left-Accumbens-area", ["26"]);
    ("Left-VentralDC", ["28"]);
    ("Right-Striatum", ["50"; "51"; "58"]);
    ("Right-Lateral-Ventricle", ["43"; "44"; "63"]);
    ("Right-Cerebellum-White-Matter", ["46"]);
    ("Right-Cerebellum-Cortex", ["47"]);
    ("Right-Thalamus-Proper", ["49"]);
    ("Right-Caudate", ["50"]);
    ("Right-Putamen", ["51"]);
    ("Right-Pallidum", ["52"]);
    ("Right-Hippocampus", ["53"]);
    ("Right-Amygdala", ["54"]);
    ("Right-Accumbens-area", ["58"]);
    ("Right-VentralDC", ["60"]) ].

Definition cortical_labels : list (string * string) :=
  [ ("lh-white-2d", "lh.white");
    ("rh-white-2d", "rh.white");
    ("lh-pial-2d", "lh.pial");
    ("rh-pial-2d", "rh.pial") ].

(** [{label: build(value) for label, value in labels.items()}] *)
Definition dict_comprehension {V} (build : V -> io state Path)
    (labels : list (string * V)) : io state (gmap string Path) :=
  for_each
    (fun surfaces '(label, value) =>
       (path <- build value ;; ret (<[label := path]> surfaces))%io)
    labels ∅.

Definition create_cereb_surfaces (subject_dir destination : Path)
  : io state (gmap string Path) :=
  dict_comprehension (create_cereb_surface subject_dir destination)
    cereb_labels.

Definition create_aseg_surfaces (subject_dir destination : Path)
  : io state (gmap string Path) :=
  dict_comprehension (create_aseg_surface subject_dir destination)
    aseg_labels.

Definition surf_to_vtk (source destination : Path) : io state Path :=
  (mesh <- external (ReadFssurf source) (read_fssurf source) ;;
   external (WriteVtk destination) (write_vtk mesh destination) ;;;
   ret destination)%io.

Definition create_cortical_surfaces (subject_dir destination : Path)
  : io state (gmap string Path) :=
  dict_comprehension
    (fun name =>
       surf_to_vtk (subject_dir </> "surf" </> name)
         (destination </> "surfaces" </> (name +:+ ".vtk")))
    cortical_labels.

(** [surfaces.update(other)]: the entries of [other] win. *)
Definition update (surfaces other : gmap string Path) : gmap string Path :=
  other ∪ surfaces.

Definition create_surfaces (subject_dir destination : Path)
    (skip_cortex skip_cerebellum : bool) : io state (gmap string Path) :=
  (surfaces <- create_aseg_surfaces subject_dir destination ;;
   surfaces <-
     (if negb skip_cerebellum then
        cereb_surfaces <- create_cereb_surfaces subject_dir destination ;;
        ret (update surfaces cereb_surfaces)
      else ret surfaces) ;;
   surfaces <-
     (if negb skip_cortex then
        cortical_surfaces <-
          create_cortical_surfaces subject_dir destination ;;
        ret (update surfaces cortical_surfaces)
      else ret surfaces) ;;
   ret surfaces)%io.

(** A run from outside: no call made yet. *)
Definition start (w : World) : state := State w [].

End Builders.

End Surfaces.

(** * Vocabulary of the statements *)

Module Statements.
Import Asymmetry Surfaces.

(** The key of a pair, as line 93 of [asymmetry.py] builds it. *)
Definition pair_key (p : string * string) : string := p.1 +:+ "_" +:+ p.2.

(** The structure names a list of pairs mentions. *)
Definition names (pairs : list (string * string)) : list string :=
  pairs ≫= λ p, [p.1; p.2].

(** The spectra mapping has an entry for every name of [pairs]. *)
Definition covers (eigenvalues : gmap string (list float))
    (pairs : list (string * string)) : Prop :=
  Forall (λ name, is_Some (eigenvalues !! name)) (names pairs).

(** [spectrum[0] = a; spectrum[1] = b], where those entries exist. *)
Definition replace_first_two (a b : float) (spectrum : list float)
  : list float :=
  <[1 := b]> (<[0 := a]> spectrum).

(** Every spectrum of the mapping gets new first two entries, chosen per
    structure by [values]. *)
Definition retouch (values : string → float * float)
    (eigenvalues : gmap string (list float)) : gmap string (list float) :=
  map_imap
    (λ name spectrum,
       Some (replace_first_two (values name).1 (values name).2 spectrum))
    eigenvalues.

(** The name is one of the vermis structures. *)
Definition mentions_vermis (name : string) : bool := contains "Vermis" name.

Section Runs.

Context {P : Platform}.

(** No call of the list raised. *)
Definition clean (cs : list (call * option exception)) : Prop :=
  Forall (λ c, c.2 = None) cs.

(** A computation that raises only when a call out of the repository
    raises, with that call's exception, and makes no call after it. *)
Definition failstop {A} (m : io state A) : Prop :=
  ∀ s, clean (calls s) →
    match m s with
    | (Ok _, s') => clean (calls s')
    | (Raise e, s') =>
        ∃ cs c, calls s' = (cs ++ [(c, Some e)])%list ∧ clean cs
    end.

(** Run from outside, a call that raises is the last call of the run, and
    the run raises that call's exception instead of returning. *)
Definition aborts_at_first_failure {A} (m : io state A) : Prop :=
  ∀ w pre c e post,
    calls (m (start w)).2 = (pre ++ (c, Some e) :: post)%list →
    post = [] ∧ (m (start w)).1 = Raise e.

(** The dictionary a comprehension builds when every [build] returns. *)
Definition comprehended {V} (f : V → Path) (labels : list (string * V))
    (acc : gmap string Path) : gmap string Path :=
  foldl (λ acc kv, <[kv.1 := f kv.2]> acc) acc labels.

End Runs.

End Statements.

(** * Concrete inputs *)

Module Examples.
Import Asymmetry Surfaces.

(** A Euclidean distance on binary64, standing in for
    [shapedna.compute_distance] where a concrete run is evaluated. *)
Definition euclidean (a b : list float) (dist : string) : float :=
  PrimFloat.sqrt
    (foldr PrimFloat.add 0%float
       (zip_with (λ x y, PrimFloat.mul (PrimFloat.sub x y) (PrimFloat.sub x y))
          a b)).

(** Every structure of the full catalogue carries the same spectrum. *)
Definition uniform (spectrum : list float) : gmap string (list float) :=
  list_to_map ((λ p, (p.1, spectrum)) <$> structures false false)
  ∪ list_to_map ((λ p, (p.2, spectrum)) <$> structures false false).

Definition healthy : gmap string (list float) :=
  uniform [0; 0; 1; 2]%float.

(** The left hippocampus has an infinite eigenvalue after the trivial modes. *)
Definition infinite_left_hippocampus : gmap string (list float) :=
  <["Left-Hippocampus" := [0; 0; infinity; 2]%float]> healthy.

(** The left hippocampus has a NaN eigenvalue after the trivial modes. *)
Definition nan_left_hippocampus : gmap string (list float) :=
  <["Left-Hippocampus" := [0; 0; nan; 2]%float]> healthy.

(** The spectrum of the right amygdala is absent. *)
Definition no_right_amygdala : gmap string (list float) :=
  delete "Right-Amygdala" healthy.

(** A vermis spectrum is added to the healthy mapping. *)
Definition with_vermis : gmap string (list float) :=
  <["Cbm_Vermis" := [0; 0; nan; 5]%float]> healthy.

(** A scripted outside world: paths are strings, the world counts the calls
    made, [files] are the regular files that exist, and the shell fails on
    the command lines [failing] selects. *)
Definition scripted (files : list string) (failing : string → bool)
  : Platform :=
  {| Path := string;
     World := nat;
     Mesh := unit;
     joinpath p child := p +:+ "/" +:+ child;
     path_str p := p;
     is_file p w := bool_decide (p ∈ files);
     uuid4 w := (pretty w, S w);
     run_shell_command command w :=
       (if failing command then Raise (RuntimeError command) else Ok tt,
        S w);
     read_fssurf source w := (Ok tt, S w);
     write_vtk mesh destination w := (Ok tt, S w) |}.

(** A subject with a norm volume, and a shell that never fails. *)
Definition all_good : Platform :=
  scripted ["/subjects/s1/mri/norm.mgz"] (λ _, false).

(** The same subject without a norm volume. *)
Definition no_norm : Platform := scripted [] (λ _, false).

(** Binarising the brain stem (label 16 alone) fails. *)
Definition brain_stem_fails : Platform :=
  scripted ["/subjects/s1/mri/norm.mgz"] (contains "--match 16 ").

End Examples.

(** * Mesh ingestion *)

Module Ingestion.
Import Surfaces.

Section ReadVtk.

Context {P : Platform}.

(** [TriaMesh.read_vtk(path)] of [lapy]: it returns a mesh, returns [None],
    or raises. *)
Variable tria_read_vtk : Path -> World -> result (option Mesh) * World.

(** [try: ... except Exception: raise RuntimeError(message)], and in the
    [else] branch the test for [None]. The state is the outside world. *)
Definition read_vtk (path : Path) : io World Mesh :=
  fun w =>
    match tria_read_vtk path w with
    | (Raise _, w') =>
        let message :=
          "Failed to read VTK from the following path: " +:+ path_str path
          +:+ "!" in
        (Raise (RuntimeError message), w')
    | (Ok triangular_mesh, w') =>
        match triangular_mesh with
        | None =>
            let message :=
              "Failed to read VTK from the following path: "
              +:+ path_str path +:+ "!" in
            (Raise (RuntimeError message), w')
        | Some mesh => (Ok mesh, w')
        end
    end.

End ReadVtk.

End Ingestion.

(** * Further vocabulary *)

Module Observations.
Import Asymmetry Surfaces Statements.

(** The NaN test of line 92 fires for the pair: both spectra are there and
    one of them has a NaN from index 2 on. *)
Definition flagged (eigenvalues : gmap string (list float))
    (p : string * string) : bool :=
  match eigenvalues !! p.1, eigenvalues !! p.2 with
  | Some left_spectrum, Some right_spectrum =>
      isnan_any (drop 2 left_spectrum) || isnan_any (drop 2 right_spectrum)
  | _, _ => false
  end.

(** The line printed for a flagged pair. *)
Definition notice (p : string * string) : string :=
  "NaNs found for " +:+ p.1 +:+ " or " +:+ p.2
  +:+ ", skipping asymmetry computation...".

(** The lines of the flagged pairs, in the order of the pairs. *)
Definition notices (eigenvalues : gmap string (list float))
    (pairs : list (string * string)) : list string :=
  notice <$> filter (λ p, flagged eigenvalues p = true) pairs.

(** The file, relative to the destination, of every structure taken from a
    segmentation volume. *)
Definition volumetric_files : list (string * string) :=
  ((λ kv, (kv.1, "surfaces/aseg.final." +:+ join "_" kv.2 +:+ ".vtk"))
     <$> aseg_labels)
  ++ ((λ kv, (kv.1, "surfaces/cereb.final." +:+ join "_" kv.2 +:+ ".vtk"))
        <$> cereb_labels).

Section Calls.

Context {P : Platform}.

(** The call reads or writes a mesh through [lapy]. *)
Definition mesh_call (c : call) : bool :=
  match c with
  | ReadFssurf _ | WriteVtk _ => true
  | _ => false
  end.

(** Whatever its outcome, the computation only adds calls that satisfy
    [allowed]. *)
Definition emits (allowed : call → bool) {A} (m : io state A) : Prop :=
  ∀ s, ∃ new,
    calls (m s).2 = (calls s ++ new)%list
    ∧ Forall (λ c, allowed c.1 = true) new.

(** The file [create_aseg_surface], [create_cereb_surface] and
    [surf_to_vtk] return, for a destination and the value of a label. *)
Definition aseg_file (dest : Path) (codes : list string) : Path :=
  joinpath dest ("surfaces/aseg.final." +:+ join "_" codes +:+ ".vtk").

Definition cereb_file (dest : Path) (codes : list string) : Path :=
  joinpath dest ("surfaces/cereb.final." +:+ join "_" codes +:+ ".vtk").

Definition cortical_file (dest : Path) (name : string) : Path :=
  joinpath (joinpath dest "surfaces") (name +:+ ".vtk").

End Calls.

End Observations.

(** * Further concrete inputs *)

Module MoreExamples.
Import Asymmetry Surfaces Examples.

(** A NaN in the left hippocampus, and no spectrum for the right amygdala,
    which comes one pair later. *)
Definition nan_then_missing : gmap string (list float) :=
  delete "Right-Amygdala" nan_left_hippocampus.

(** No cortical spectrum at all. *)
Definition no_cortex : gmap string (list float) :=
  delete "lh-white-2d"
    (delete "rh-white-2d" (delete "lh-pial-2d" (delete "rh-pial-2d" healthy))).

(** The caudate spectra are too short to have an entry after the first
    two, and what they have is NaN. *)
Definition short_caudate : gmap string (list float) :=
  <["Left-Caudate" := [nan; nan]%float]> (<["Right-Caudate" := []]> healthy).

(** A mesh reader that reads the [good] files, finds no mesh in the [empty]
    ones, and raises on every other path. *)
Definition scripted_read_vtk (good empty : list string)
    (path : string) (w : nat) : result (option unit) * nat :=
  if bool_decide (path ∈ good) then (Ok (Some tt), S w)
  else if bool_decide (path ∈ empty) then (Ok None, S w)
  else (Raise (KeyError path), S w).

End MoreExamples.

(** * Facts about the asymmetry scorer *)

Module AsymmetryFacts.
Import Asymmetry Statements.

Lemma keys_nodup sc sb : NoDup (pair_key <$> structures sc sb).
Proof. destruct sc, sb; compute_done. Qed.

Lemma structures_length sc sb :
  length (structures sc sb)
  = 12 + (if sc then 0 else 2) + (if sb then 0 else 10).
Proof. destruct sc, sb; reflexivity. Qed.

Lemma covers_cons e l r pairs :
  covers e ((l, r) :: pairs)
  ↔ is_Some (e !! l) ∧ is_Some (e !! r) ∧ covers e pairs.
Proof.
  unfold covers, names. cbn. rewrite !Forall_cons. tauto.
Qed.

Lemma elem_of_names name pairs :
  name ∈ names pairs ↔ ∃ l r, (l, r) ∈ pairs ∧ (name = l ∨ name = r).
Proof.
  unfold names. rewrite list_elem_of_bind. split.
  - intros [[l r] [Hin Hp]]. exists l, r. cbn in Hin.
    split; [exact Hp|].
    apply elem_of_cons in Hin as [->|Hin]; [left; reflexivity|].
    apply list_elem_of_singleton in Hin as ->. right; reflexivity.
  - intros (l & r & Hp & Hn). exists (l, r). cbn. split; [|exact Hp].
    destruct Hn as [->| ->]; [left|right; left].
Qed.

Section Loop.

Variable compute_distance : list float -> list float -> string -> float.
Variable eigenvalues : gmap string (list float).
Variable distance : string.

Local Abbreviation step := (record_pair compute_distance eigenvalues distance).

Lemma record_pair_run acc l r sl sr out :
  eigenvalues !! l = Some sl → eigenvalues !! r = Some sr →
  step acc (l, r) out =
    if isnan_any (drop 2 sl) || isnan_any (drop 2 sr)
    then (Ok (<[l +:+ "_" +:+ r := nan]> acc),
          (out ++ ["NaNs found for " +:+ l +:+ " or " +:+ r
                   +:+ ", skipping asymmetry computation..."])%list)
    else (Ok (<[l +:+ "_" +:+ r :=
                  compute_distance (drop 2 sl) (drop 2 sr) distance]> acc),
          out).
Proof.
  intros Hl Hr. unfold record_pair, getitem, bind.
  rewrite Hl. cbn. rewrite Hr. cbn.
  destruct (isnan_any (drop 2 sl) || isnan_any (drop 2 sr)); reflexivity.
Qed.

Lemma record_pair_missing_left acc l r out :
  eigenvalues !! l = None →
  step acc (l, r) out = (Raise (KeyError l), out).
Proof.
  intros Hl. unfold record_pair, getitem, bind. rewrite Hl. reflexivity.
Qed.

Lemma record_pair_missing_right acc l r sl out :
  eigenvalues !! l = Some sl → eigenvalues !! r = None →
  step acc (l, r) out = (Raise (KeyError r), out).
Proof.
  intros Hl Hr. unfold record_pair, getitem, bind.
  rewrite Hl. cbn. rewrite Hr. reflexivity.
Qed.

(** What a pass over covered pairs leaves behind. *)
Lemma for_each_covered pairs :
  ∀ acc out, covers eigenvalues pairs →
  ∃ m notices,
    for_each step pairs acc out = (Ok m, (out ++ notices)%list)
    ∧ dom m = dom acc ∪ list_to_set (pair_key <$> pairs)
    ∧ (NoDup (pair_key <$> pairs) →
       ∀ l r sl sr, (l, r) ∈ pairs →
         eigenvalues !! l = Some sl → eigenvalues !! r = Some sr →
         m !! (l +:+ "_" +:+ r)
         = Some (if isnan_any (drop 2 sl) || isnan_any (drop 2 sr)
                 then nan
                 else compute_distance (drop 2 sl) (drop 2 sr) distance))
    ∧ (∀ k, k ∉ pair_key <$> pairs → m !! k = acc !! k)
    ∧ (∀ l r sl sr, (l, r) ∈ pairs →
         eigenvalues !! l = Some sl → eigenvalues !! r = Some sr →
         isnan_any (drop 2 sl) || isnan_any (drop 2 sr) = true →
         ("NaNs found for " +:+ l +:+ " or " +:+ r
          +:+ ", skipping asymmetry computation...") ∈ notices).
Proof.
  induction pairs as [|[l r] pairs IH]; intros acc out Hcov.
  - exists acc, []. cbn. rewrite app_nil_r. unfold ret.
    split; [reflexivity|]. split; [|split; [|split]].
    + rewrite union_empty_r_L. reflexivity.
    + intros _ l r sl sr Hin. inversion Hin.
    + reflexivity.
    + intros l r sl sr Hin. inversion Hin.
  - apply covers_cons in Hcov as ([sl Hl] & [sr Hr] & Hcov).
    cbn [for_each]. unfold bind at 1.
    rewrite (record_pair_run acc l r sl sr out Hl Hr).
    set (flag := isnan_any (drop 2 sl) || isnan_any (drop 2 sr)).
    set (v := if flag then nan
              else compute_distance (drop 2 sl) (drop 2 sr) distance).
    set (note := if flag
                 then ["NaNs found for " +:+ l +:+ " or " +:+ r
                       +:+ ", skipping asymmetry computation..."]
                 else []).
    destruct (IH (<[l +:+ "_" +:+ r := v]> acc) (out ++ note)%list Hcov)
      as (m & notices & Hrun & Hdom & Hval & Hframe & Hnote).
    exists m, (note ++ notices)%list.
    assert (Hstep :
      (let (r0, s') :=
         if flag
         then (Ok (<[l +:+ "_" +:+ r := nan]> acc),
               (out ++ ["NaNs found for " +:+ l +:+ " or " +:+ r
                        +:+ ", skipping asymmetry computation..."])%list)
         else (Ok (<[l +:+ "_" +:+ r :=
                 compute_distance (drop 2 sl) (drop 2 sr) distance]> acc),
               out)
       in match r0 with
          | Ok a => for_each step pairs a s'
          | Raise e => (Raise e, s')
          end)
      = (Ok m, (out ++ note ++ notices)%list)).
    { rewrite app_assoc, <- Hrun. subst v note.
      destruct flag; cbn; rewrite ?app_nil_r; reflexivity. }
    split; [exact Hstep|].
    split; [|split; [|split]].
    + rewrite Hdom, dom_insert_L, fmap_cons, list_to_set_cons.
      change (pair_key (l, r)) with (l +:+ "_" +:+ r).
      rewrite (union_comm_L {[l +:+ "_" +:+ r]} (dom acc)).
      rewrite (assoc_L (∪)). reflexivity.
    + intros Hnd l' r' sl' sr' Hin Hl' Hr'.
      rewrite fmap_cons in Hnd. apply NoDup_cons in Hnd as [Hfresh Hnd].
      change (pair_key (l, r)) with (l +:+ "_" +:+ r) in Hfresh.
      apply elem_of_cons in Hin as [Heq|Hin].
      * inversion Heq; subst l' r'.
        rewrite Hl in Hl'. rewrite Hr in Hr'.
        inversion Hl'; inversion Hr'; subst sl' sr'.
        rewrite (Hframe _ Hfresh). apply lookup_insert_eq.
      * eapply Hval; eauto.
    + intros k Hk. rewrite fmap_cons in Hk.
      apply not_elem_of_cons in Hk as [Hne Hk].
      rewrite (Hframe k Hk). apply lookup_insert_ne.
      intros Heq. apply Hne. rewrite <- Heq. reflexivity.
    + intros l' r' sl' sr' Hin Hl' Hr' Hflag.
      apply elem_of_cons in Hin as [Heq|Hin].
      * inversion Heq; subst l' r'.
        rewrite Hl in Hl'. rewrite Hr in Hr'.
        inversion Hl'; inversion Hr'; subst sl' sr'.
        subst note flag. rewrite Hflag.
        apply elem_of_app. left. apply list_elem_of_singleton. reflexivity.
      * apply elem_of_app. right. eapply Hnote; eauto.
Qed.

(** A pass over pairs that are not all covered stops at a missing name. *)
Lemma for_each_missing pairs :
  ∀ acc out, ¬ covers eigenvalues pairs →
  ∃ k notices,
    k ∈ names pairs ∧ eigenvalues !! k = None
    ∧ for_each step pairs acc out
      = (Raise (KeyError k), (out ++ notices)%list).
Proof.
  induction pairs as [|[l r] pairs IH]; intros acc out Hcov.
  - destruct Hcov. apply Forall_nil_2.
  - destruct (eigenvalues !! l) as [sl|] eqn:Hl.
    2:{ exists l, []. rewrite app_nil_r. split; [left|].
        split; [exact Hl|].
        cbn [for_each]. unfold bind.
        rewrite (record_pair_missing_left acc l r out Hl). reflexivity. }
    destruct (eigenvalues !! r) as [sr|] eqn:Hr.
    2:{ exists r, []. rewrite app_nil_r. split; [right; left|].
        split; [exact Hr|].
        cbn [for_each]. unfold bind.
        rewrite (record_pair_missing_right acc l r sl out Hl Hr).
        reflexivity. }
    assert (Htail : ¬ covers eigenvalues pairs).
    { intros Hc. apply Hcov. apply covers_cons.
      rewrite Hl, Hr. split; [eauto|]. split; [eauto|exact Hc]. }
    cbn [for_each]. unfold bind at 1.
    rewrite (record_pair_run acc l r sl sr out Hl Hr).
    destruct (isnan_any (drop 2 sl) || isnan_any (drop 2 sr)).
    + destruct (IH (<[l +:+ "_" +:+ r := nan]> acc)
                  (out ++ ["NaNs found for " +:+ l +:+ " or " +:+ r
                   +:+ ", skipping asymmetry computation..."])%list Htail)
        as (k & notices & Hk & Hnone & Hrun).
      exists k, (["NaNs found for " +:+ l +:+ " or " +:+ r
                  +:+ ", skipping asymmetry computation..."]
                 ++ notices)%list.
      split; [right; right; exact Hk|]. split; [exact Hnone|].
      rewrite Hrun, <- app_assoc. reflexivity.
    + destruct (IH (<[l +:+ "_" +:+ r :=
                        compute_distance (drop 2 sl) (drop 2 sr) distance]>
                      acc) out Htail)
        as (k & notices & Hk & Hnone & Hrun).
      exists k, notices.
      split; [right; right; exact Hk|]. split; [exact Hnone|exact Hrun].
Qed.

End Loop.

(** Whenever a pass returns, it has recorded a key for each pair. *)
Lemma for_each_Ok_dom cd e d pairs :
  ∀ acc out m out',
    for_each (record_pair cd e d) pairs acc out = (Ok m, out') →
    dom m = dom acc ∪ list_to_set (pair_key <$> pairs).
Proof.
  induction pairs as [|[l r] pairs IH]; intros acc out m out' Hrun.
  - cbn in Hrun. injection Hrun as <- _.
    cbn. rewrite union_empty_r_L. reflexivity.
  - cbn [for_each] in Hrun. unfold bind at 1 in Hrun.
    destruct (e !! l) as [sl|] eqn:Hl.
    2:{ rewrite (record_pair_missing_left cd e d acc l r out Hl) in Hrun.
        discriminate. }
    destruct (e !! r) as [sr|] eqn:Hr.
    2:{ rewrite (record_pair_missing_right cd e d acc l r sl out Hl Hr)
          in Hrun.
        discriminate. }
    rewrite (record_pair_run cd e d acc l r sl sr out Hl Hr) in Hrun.
    destruct (isnan_any (drop 2 sl) || isnan_any (drop 2 sr));
      apply IH in Hrun; rewrite Hrun, dom_insert_L, fmap_cons,
        list_to_set_cons;
      change (pair_key (l, r)) with (l +:+ "_" +:+ r);
      rewrite (union_comm_L {[l +:+ "_" +:+ r]} (dom acc)), (assoc_L (∪));
      reflexivity.
Qed.

Lemma selected_names_not_vermis sc sb name :
  name ∈ names (structures sc sb) → mentions_vermis name = false.
Proof.
  revert name. apply Forall_forall. destruct sc, sb; compute_done.
Qed.

Lemma selected_keys_not_vermis sc sb k :
  k ∈ pair_key <$> structures sc sb → mentions_vermis k = false.
Proof.
  revert k. apply Forall_forall. destruct sc, sb; compute_done.
Qed.

(** The pass reads a spectrum only through its entries from index 2 on. *)
Lemma record_pair_trimmed cd e1 e2 d acc l r out :
  drop 2 <$> e1 !! l = drop 2 <$> e2 !! l →
  drop 2 <$> e1 !! r = drop 2 <$> e2 !! r →
  record_pair cd e1 d acc (l, r) out = record_pair cd e2 d acc (l, r) out.
Proof.
  intros Hl Hr. unfold record_pair, getitem, bind.
  destruct (e1 !! l) as [a1|], (e2 !! l) as [a2|]; try discriminate;
    [|reflexivity].
  cbn. injection Hl as Hl.
  destruct (e1 !! r) as [b1|], (e2 !! r) as [b2|]; try discriminate;
    [|reflexivity].
  cbn. injection Hr as Hr. rewrite Hl, Hr. reflexivity.
Qed.

Lemma for_each_trimmed cd e1 e2 d pairs :
  (∀ k, k ∈ names pairs → drop 2 <$> e1 !! k = drop 2 <$> e2 !! k) →
  ∀ acc out,
    for_each (record_pair cd e1 d) pairs acc out
    = for_each (record_pair cd e2 d) pairs acc out.
Proof.
  induction pairs as [|[l r] pairs IH]; intros Hagree acc out;
    [reflexivity|].
  cbn [for_each]. unfold bind.
  rewrite (record_pair_trimmed cd e1 e2 d acc l r out).
  - destruct (record_pair cd e2 d acc (l, r) out) as [[m|ex] out'];
      [|reflexivity].
    apply IH. intros k Hk. apply Hagree. right; right; exact Hk.
  - apply Hagree. left.
  - apply Hagree. right; left.
Qed.

Lemma covers_lookup e pairs l r :
  covers e pairs → (l, r) ∈ pairs →
  is_Some (e !! l) ∧ is_Some (e !! r).
Proof.
  unfold covers. rewrite Forall_forall. intros Hcov Hin.
  split; apply Hcov, elem_of_names; exists l, r; auto.
Qed.

Lemma string_app_assoc (a b c : string) :
  (a +:+ b) +:+ c = a +:+ (b +:+ c).
Proof.
  induction a as [|x a IH]; [reflexivity|].
  change (String x ((a +:+ b) +:+ c) = String x (a +:+ (b +:+ c))).
  rewrite IH. reflexivity.
Qed.

(** [needle in (before + needle + after)]. *)
Lemma prefix_app needle rest : String.prefix needle (needle +:+ rest) = true.
Proof.
  induction needle as [|a needle IH]; [destruct rest; reflexivity|].
  change (String a needle +:+ rest) with (String a (needle +:+ rest)).
  cbn [String.prefix].
  destruct (Ascii.ascii_dec a a); [exact IH|congruence].
Qed.

Lemma contains_app before needle rest :
  contains needle (before +:+ needle +:+ rest) = true.
Proof.
  induction before as [|a before IH].
  - change (EmptyString +:+ needle +:+ rest) with (needle +:+ rest).
    destruct (needle +:+ rest) eqn:Heq; cbn [contains];
      rewrite <- Heq, prefix_app; reflexivity.
  - change (String a before +:+ needle +:+ rest)
      with (String a (before +:+ needle +:+ rest)).
    cbn [contains]. rewrite IH. apply orb_true_r.
Qed.

(** ** Properties of [compute_asymmetry] *)

Section Claims.

Variable compute_distance : list float -> list float -> string -> float.

Local Abbreviation score := (compute_asymmetry compute_distance).

(** C1, as the code has it: on a spectra mapping that covers the selected
    names, the run returns a mapping over all selected pairs whatever pairs
    are flagged, and the value recorded for a pair is NaN when the trimmed
    spectrum of left or of right contains a NaN ([np.isnan]), and otherwise
    -- infinite entries included -- the value the external distance
    function returns on the two trimmed spectra. *)
Theorem nan_pair_is_recorded_as_nan eigenvalues distance sc sb out l r sl sr :
  covers eigenvalues (structures sc sb) →
  (l, r) ∈ structures sc sb →
  eigenvalues !! l = Some sl →
  eigenvalues !! r = Some sr →
  ∃ m out',
    score eigenvalues distance sc sb out = (Ok m, out')
    ∧ dom m = list_to_set (pair_key <$> structures sc sb)
    ∧ m !! (l +:+ "_" +:+ r)
      = Some (if isnan_any (drop 2 sl) || isnan_any (drop 2 sr)
              then nan
              else compute_distance (drop 2 sl) (drop 2 sr) distance).
Proof.
  intros Hcov Hin Hl Hr. unfold compute_asymmetry.
  destruct (for_each_covered compute_distance eigenvalues distance
              (structures sc sb) ∅ out Hcov)
    as (m & notices & Hrun & Hdom & Hval & _ & _).
  exists m, (out ++ notices)%list. split; [exact Hrun|]. split.
  - rewrite Hdom, dom_empty_L, union_empty_l_L. reflexivity.
  - apply Hval; auto using keys_nodup.
Qed.

(** C2: a pair whose NaN test fires leaves, on standard output, the notice
    ["NaNs found for <left> or <right>, skipping asymmetry computation..."],
    which contains the name of the left and of the right structure. *)
Theorem flagged_pair_notice_names_both eigenvalues distance sc sb out
    l r sl sr :
  covers eigenvalues (structures sc sb) →
  (l, r) ∈ structures sc sb →
  eigenvalues !! l = Some sl →
  eigenvalues !! r = Some sr →
  isnan_any (drop 2 sl) || isnan_any (drop 2 sr) = true →
  ∃ m notices message,
    score eigenvalues distance sc sb out = (Ok m, (out ++ notices)%list)
    ∧ message ∈ notices
    ∧ message = "NaNs found for " +:+ l +:+ " or " +:+ r
                +:+ ", skipping asymmetry computation..."
    ∧ contains l message = true
    ∧ contains r message = true.
Proof.
  intros Hcov Hin Hl Hr Hflag. unfold compute_asymmetry.
  destruct (for_each_covered compute_distance eigenvalues distance
              (structures sc sb) ∅ out Hcov)
    as (m & notices & Hrun & _ & _ & _ & Hnote).
  exists m, notices, ("NaNs found for " +:+ l +:+ " or " +:+ r
                      +:+ ", skipping asymmetry computation...").
  split; [exact Hrun|]. split; [eapply Hnote; eauto|].
  split; [reflexivity|]. split.
  - apply contains_app.
  - rewrite <- (string_app_assoc l " or "), <- string_app_assoc.
    apply contains_app.
Qed.

(** C3: on a spectra mapping that covers the selected names, the returned
    mapping has one entry per selected pair and no other key: the selected
    pairs are the 12 subcortical ones, the 2 cortical ones unless
    [skip_cortex], the 10 cerebellar ones unless [skip_cerebellum], and
    their keys are pairwise distinct. *)
Theorem result_has_one_entry_per_selected_pair eigenvalues distance sc sb out :
  covers eigenvalues (structures sc sb) →
  ∃ m out',
    score eigenvalues distance sc sb out = (Ok m, out')
    ∧ (∀ k, is_Some (m !! k)
            ↔ ∃ l r, (l, r) ∈ structures sc sb ∧ k = l +:+ "_" +:+ r)
    ∧ size m = 12 + (if sc then 0 else 2) + (if sb then 0 else 10)
    ∧ size m = length (structures sc sb)
    ∧ (∀ p, p ∈ structures sc sb
            ↔ p ∈ structures_left_right
              ∨ (sc = false ∧ p ∈ cortex_2d_left_right)
              ∨ (sb = false ∧ p ∈ structures_left_right_cerebellum)).
Proof.
  intros Hcov. unfold compute_asymmetry.
  destruct (for_each_covered compute_distance eigenvalues distance
              (structures sc sb) ∅ out Hcov)
    as (m & notices & Hrun & Hdom & _ & _ & _).
  rewrite dom_empty_L, union_empty_l_L in Hdom.
  assert (Hsize : size m = length (structures sc sb)).
  { rewrite <- size_dom, Hdom, size_list_to_set by apply keys_nodup.
    apply length_fmap. }
  exists m, (out ++ notices)%list. split; [exact Hrun|].
  split; [|split; [|split]].
  - intros k. rewrite <- elem_of_dom, Hdom, elem_of_list_to_set.
    rewrite list_elem_of_fmap. split.
    + intros [[l r] [-> Hin]]. exists l, r. split; [exact Hin|reflexivity].
    + intros (l & r & Hin & ->). exists (l, r). split; [reflexivity|exact Hin].
  - rewrite Hsize. apply structures_length.
  - exact Hsize.
  - intros p. unfold structures.
    destruct sc, sb; cbn [negb]; rewrite ?elem_of_app; intuition congruence.
Qed.

(** C8: when a structure of a selected pair has no entry in the spectra
    mapping, the run raises [KeyError] for a selected name that has no
    entry, and so returns no mapping. *)
Theorem missing_spectrum_raises_key_error eigenvalues distance sc sb out l r :
  (l, r) ∈ structures sc sb →
  eigenvalues !! l = None ∨ eigenvalues !! r = None →
  ∃ k out',
    score eigenvalues distance sc sb out = (Raise (KeyError k), out')
    ∧ eigenvalues !! k = None
    ∧ k ∈ names (structures sc sb).
Proof.
  intros Hin Hnone. unfold compute_asymmetry.
  destruct (for_each_missing compute_distance eigenvalues distance
              (structures sc sb) ∅ out)
    as (k & notices & Hk & Hmiss & Hrun).
  - intros Hcov. destruct (covers_lookup _ _ _ _ Hcov Hin) as [[? Hl] [? Hr]].
    destruct Hnone; congruence.
  - exists k, (out ++ notices)%list. auto.
Qed.

(** C9: the key of a selected pair is its left name, an underscore, its
    right name; every key of the result has that form; the hippocampus pair
    is recorded under ["Left-Hippocampus_Right-Hippocampus"]. *)
Theorem pair_key_is_left_underscore_right eigenvalues distance sc sb out :
  covers eigenvalues (structures sc sb) →
  ∃ m out',
    score eigenvalues distance sc sb out = (Ok m, out')
    ∧ (∀ l r, (l, r) ∈ structures sc sb → is_Some (m !! (l +:+ "_" +:+ r)))
    ∧ (∀ k, is_Some (m !! k)
            → ∃ l r, (l, r) ∈ structures sc sb ∧ k = l +:+ "_" +:+ r)
    ∧ ("Left-Hippocampus", "Right-Hippocampus") ∈ structures sc sb
    ∧ "Left-Hippocampus" +:+ "_" +:+ "Right-Hippocampus"
      = "Left-Hippocampus_Right-Hippocampus"
    ∧ is_Some (m !! "Left-Hippocampus_Right-Hippocampus").
Proof.
  intros Hcov. unfold compute_asymmetry.
  destruct (for_each_covered compute_distance eigenvalues distance
              (structures sc sb) ∅ out Hcov)
    as (m & notices & Hrun & Hdom & Hval & _ & _).
  rewrite dom_empty_L, union_empty_l_L in Hdom.
  assert (Hkeys : ∀ l r, (l, r) ∈ structures sc sb
                         → is_Some (m !! (l +:+ "_" +:+ r))).
  { intros l r Hin.
    destruct (covers_lookup _ _ _ _ Hcov Hin) as [[sl Hl] [sr Hr]].
    rewrite (Hval (keys_nodup sc sb) l r sl sr Hin Hl Hr). eauto. }
  assert (Hhip : ("Left-Hippocampus", "Right-Hippocampus")
                 ∈ structures sc sb).
  { destruct sc, sb; compute_done. }
  exists m, (out ++ notices)%list. split; [exact Hrun|].
  split; [exact Hkeys|]. split; [|split; [exact Hhip|split]].
  - intros k. rewrite <- elem_of_dom, Hdom, elem_of_list_to_set.
    rewrite list_elem_of_fmap.
    intros [[l r] [-> Hin]]. exists l, r. split; [exact Hin|reflexivity].
  - reflexivity.
  - apply (Hkeys _ _ Hhip).
Qed.

(** C4: the first two entries of the spectra do not influence the run:
    giving every spectrum new first two entries (any values, finite or not;
    spectra of any length, those of length at least 2 among them) leaves
    the returned mapping, and the notices, as they were. *)
Theorem first_two_entries_never_influence eigenvalues values distance sc sb
    out :
  score (retouch values eigenvalues) distance sc sb out
  = score eigenvalues distance sc sb out.
Proof.
  unfold compute_asymmetry. apply for_each_trimmed.
  intros k _. unfold retouch. rewrite map_lookup_imap.
  destruct (eigenvalues !! k) as [s|]; [|reflexivity].
  cbn. f_equal. unfold replace_first_two.
  destruct s as [|x [|y s]]; reflexivity.
Qed.

End Claims.

(** ** Concrete runs of the scorer *)

Import Examples.

Lemma nan_pair_is_recorded_as_nan_witness :
  ∃ m out',
    compute_asymmetry euclidean nan_left_hippocampus "euc" false false []
    = (Ok m, out')
    ∧ dom m = list_to_set (pair_key <$> structures false false)
    ∧ m !! "Left-Hippocampus_Right-Hippocampus" = Some nan.
Proof.
  apply (nan_pair_is_recorded_as_nan euclidean nan_left_hippocampus "euc"
           false false [] "Left-Hippocampus" "Right-Hippocampus"
           [0; 0; nan; 2]%float [0; 0; 1; 2]%float).
  - unfold covers. compute_done.
  - compute_done.
  - vm_compute. reflexivity.
  - vm_compute. reflexivity.
Defined.

(** C1 as stated fails: an infinite eigenvalue after the first two is a
    non-finite value, yet the pair is not flagged; the distance function is
    called and what it returns, here an infinity and not a NaN, is recorded,
    and no notice is written. *)
Lemma infinite_spectrum_is_not_flagged :
  infinite_left_hippocampus !! "Left-Hippocampus"
  = Some [0; 0; infinity; 2]%float
  ∧ existsb (λ x, negb (is_finite x)) (drop 2 [0; 0; infinity; 2]%float)
    = true
  ∧ ∃ m,
      compute_asymmetry euclidean infinite_left_hippocampus "euc"
        false false []
      = (Ok m, [])
      ∧ m !! "Left-Hippocampus_Right-Hippocampus" = Some infinity
      ∧ is_nan infinity = false.
Proof.
  split; [vm_compute; reflexivity|]. split; [vm_compute; reflexivity|].
  assert (Hcov : covers infinite_left_hippocampus (structures false false))
    by (unfold covers; compute_done).
  destruct (for_each_covered euclidean infinite_left_hippocampus "euc"
              (structures false false) ∅ [] Hcov)
    as (m & notices & Hrun & _ & Hval & _ & _).
  assert (Hout : (compute_asymmetry euclidean infinite_left_hippocampus
                    "euc" false false []).2 = [])
    by (vm_compute; reflexivity).
  unfold compute_asymmetry in Hout |- *.
  rewrite Hrun in Hout |- *. cbn in Hout. rewrite Hout.
  exists m. split; [reflexivity|]. split; [|vm_compute; reflexivity].
  apply (Hval (keys_nodup false false)
           "Left-Hippocampus" "Right-Hippocampus"
           [0; 0; infinity; 2]%float [0; 0; 1; 2]%float).
  - compute_done.
  - vm_compute. reflexivity.
  - vm_compute. reflexivity.
Qed.

Lemma flagged_pair_notice_names_both_witness :
  ∃ m notices message,
    compute_asymmetry euclidean nan_left_hippocampus "euc" false false []
    = (Ok m, ([] ++ notices)%list)
    ∧ message ∈ notices
    ∧ message = "NaNs found for Left-Hippocampus or Right-Hippocampus, "
                +:+ "skipping asymmetry computation..."
    ∧ contains "Left-Hippocampus" message = true
    ∧ contains "Right-Hippocampus" message = true.
Proof.
  apply (flagged_pair_notice_names_both euclidean nan_left_hippocampus "euc"
           false false [] "Left-Hippocampus" "Right-Hippocampus"
           [0; 0; nan; 2]%float [0; 0; 1; 2]%float).
  - unfold covers. compute_done.
  - compute_done.
  - vm_compute. reflexivity.
  - vm_compute. reflexivity.
  - vm_compute. reflexivity.
Defined.

Lemma result_has_one_entry_per_selected_pair_witness :
  ∃ m out',
    compute_asymmetry euclidean healthy "euc" false true [] = (Ok m, out')
    ∧ size m = 14.
Proof.
  destruct (result_has_one_entry_per_selected_pair euclidean healthy "euc"
              false true [])
    as (m & out' & Hrun & _ & Hsize & _).
  - unfold covers. compute_done.
  - exists m, out'. split; [exact Hrun|exact Hsize].
Defined.

Lemma missing_spectrum_raises_key_error_witness :
  ∃ k out',
    compute_asymmetry euclidean no_right_amygdala "euc" false false []
    = (Raise (KeyError k), out')
    ∧ no_right_amygdala !! k = None
    ∧ k ∈ names (structures false false).
Proof.
  apply (missing_spectrum_raises_key_error euclidean no_right_amygdala "euc"
           false false [] "Left-Amygdala" "Right-Amygdala").
  - compute_done.
  - right. vm_compute. reflexivity.
Defined.

Lemma pair_key_is_left_underscore_right_witness :
  ∃ m out',
    compute_asymmetry euclidean healthy "euc" true true [] = (Ok m, out')
    ∧ is_Some (m !! "Left-Hippocampus_Right-Hippocampus").
Proof.
  destruct (pair_key_is_left_underscore_right euclidean healthy "euc"
              true true [])
    as (m & out' & Hrun & _ & _ & _ & _ & Hhip).
  - unfold covers. compute_done.
  - exists m, out'. split; [exact Hrun|exact Hhip].
Defined.

End AsymmetryFacts.

(** * Facts about the surface builders *)

Module SurfacesFacts.
Import Asymmetry Surfaces Statements.

Section Failure.

Context {P : Platform}.

Lemma failstop_ret {A} (a : A) : failstop (ret a).
Proof. intros s Hs. exact Hs. Qed.

Lemma failstop_bind {A B} (m : io state A) (k : A → io state B) :
  failstop m → (∀ a, failstop (k a)) → failstop (bind m k).
Proof.
  intros Hm Hk s Hs. unfold bind. specialize (Hm s Hs).
  destruct (m s) as [[a|e] s1]; [apply Hk; exact Hm|exact Hm].
Qed.

Lemma failstop_external {A} c (f : World → result A * World) :
  failstop (external c f).
Proof.
  intros s Hs. unfold external.
  destruct (f (world s)) as [[a|e] w]; cbn.
  - apply Forall_app. split; [exact Hs|]. repeat constructor.
  - exists (calls s), c. split; [reflexivity|exact Hs].
Qed.

Lemma failstop_fresh_uuid : failstop fresh_uuid.
Proof.
  intros s Hs. unfold fresh_uuid.
  destruct (uuid4 (world s)) as [u w]; cbn.
  apply Forall_app. split; [exact Hs|]. repeat constructor.
Qed.

Lemma failstop_path_is_file p : failstop (path_is_file p).
Proof.
  intros s Hs. unfold path_is_file. cbn.
  apply Forall_app. split; [exact Hs|]. repeat constructor.
Qed.

Lemma failstop_for_each {A B} (body : B → A → io state B) xs :
  (∀ acc x, failstop (body acc x)) → ∀ acc, failstop (for_each body xs acc).
Proof.
  intros Hbody. induction xs as [|x xs IH]; intros acc; cbn [for_each].
  - apply failstop_ret.
  - apply failstop_bind; [apply Hbody|exact IH].
Qed.

(** Follows the shape of a computation built from the pieces above. *)
Ltac failstop_steps :=
  cbv zeta;
  repeat lazymatch goal with
  | |- failstop (bind _ _) => apply failstop_bind; [|intros ?; cbv zeta]
  | |- failstop (ret _) => apply failstop_ret
  | |- failstop (shell _) => apply failstop_external
  | |- failstop (external _ _) => apply failstop_external
  | |- failstop fresh_uuid => apply failstop_fresh_uuid
  | |- failstop (path_is_file _) => apply failstop_path_is_file
  | |- failstop (if ?b then _ else _) => destruct b
  end.

Lemma failstop_create_aseg_surface sd dest idx :
  failstop (create_aseg_surface sd dest idx).
Proof. unfold create_aseg_surface. failstop_steps. Qed.

Lemma failstop_create_cereb_surface sd dest idx :
  failstop (create_cereb_surface sd dest idx).
Proof. unfold create_cereb_surface. failstop_steps. Qed.

Lemma failstop_surf_to_vtk src dst : failstop (surf_to_vtk src dst).
Proof. unfold surf_to_vtk. failstop_steps. Qed.

Lemma failstop_dict_comprehension {V} (build : V → io state Path) labels :
  (∀ v, failstop (build v)) → failstop (dict_comprehension build labels).
Proof.
  intros Hbuild. unfold dict_comprehension.
  apply failstop_for_each. intros acc [label v].
  failstop_steps. apply Hbuild.
Qed.

Lemma failstop_create_aseg_surfaces sd dest :
  failstop (create_aseg_surfaces sd dest).
Proof.
  apply failstop_dict_comprehension. intros v.
  apply failstop_create_aseg_surface.
Qed.

Lemma failstop_create_cereb_surfaces sd dest :
  failstop (create_cereb_surfaces sd dest).
Proof.
  apply failstop_dict_comprehension. intros v.
  apply failstop_create_cereb_surface.
Qed.

Lemma failstop_create_cortical_surfaces sd dest :
  failstop (create_cortical_surfaces sd dest).
Proof.
  apply failstop_dict_comprehension. intros v. apply failstop_surf_to_vtk.
Qed.

Lemma failstop_create_surfaces sd dest sc sb :
  failstop (create_surfaces sd dest sc sb).
Proof.
  unfold create_surfaces.
  apply failstop_bind; [apply failstop_create_aseg_surfaces|intros m1].
  apply failstop_bind.
  { destruct (negb sb); [|apply failstop_ret].
    apply failstop_bind; [apply failstop_create_cereb_surfaces|].
    intros ?. apply failstop_ret. }
  intros m2. apply failstop_bind.
  { destruct (negb sc); [|apply failstop_ret].
    apply failstop_bind; [apply failstop_create_cortical_surfaces|].
    intros ?. apply failstop_ret. }
  intros m3. apply failstop_ret.
Qed.

(** In a run that is [failstop], a call that raised is the last call, and
    its exception is the run's. *)
Lemma failstop_first_failure_is_last {A} (m : io state A) w pre c e post :
  failstop m →
  calls (m (start w)).2 = (pre ++ (c, Some e) :: post)%list →
  post = [] ∧ (m (start w)).1 = Raise e.
Proof.
  intros Hm Hcalls. specialize (Hm (start w) (Forall_nil_2 _)).
  destruct (m (start w)) as [[a|e'] s']; cbn in Hcalls |- *.
  - rewrite Hcalls in Hm. apply Forall_app in Hm as [_ Hm].
    apply Forall_cons in Hm as [Hm _]. discriminate.
  - destruct Hm as (cs & c' & Hcs & Hclean). rewrite Hcs in Hcalls.
    destruct post as [|x post _] using rev_ind.
    + apply app_inj_tail in Hcalls as [_ Heq].
      split; [reflexivity|congruence].
    + rewrite app_comm_cons, app_assoc in Hcalls.
      apply app_inj_tail in Hcalls as [Heq _]. rewrite Heq in Hclean.
      apply Forall_app in Hclean as [_ Hclean].
      apply Forall_cons in Hclean as [Hclean _]. discriminate.
Qed.

End Failure.

Section Success.

Context {P : Platform}.

Local Notation "p </> child" := (joinpath p child)
  (at level 40, left associativity).

Lemma bind_Ok_inv {S A B} (m : io S A) (k : A → io S B) s b s' :
  bind m k s = (Ok b, s') → ∃ a s1, m s = (Ok a, s1) ∧ k a s1 = (Ok b, s').
Proof.
  unfold bind. destruct (m s) as [[a|e] s1]; [eauto|discriminate].
Qed.

Lemma ret_Ok_inv {S A} (a b : A) (s s' : S) :
  ret a s = (Ok b, s') → b = a ∧ s' = s.
Proof. unfold ret. intros [= -> ->]. auto. Qed.

Lemma shell_Ok_inv command s u s' :
  shell command s = (Ok u, s') →
  s' = State (run_shell_command command (world s)).2
             (calls s ++ [(Shell command, None)])%list.
Proof.
  unfold shell, external.
  destruct (run_shell_command command (world s)) as [[[]|e] w];
    [|discriminate].
  intros [= <- <-]. reflexivity.
Qed.

Lemma fresh_uuid_Ok_inv s uid s' :
  fresh_uuid s = (Ok uid, s') →
  uid = (uuid4 (world s)).1
  ∧ s' = State (uuid4 (world s)).2 (calls s ++ [(Uuid4, None)])%list.
Proof.
  unfold fresh_uuid. destruct (uuid4 (world s)) as [u w].
  intros [= <- <-]. auto.
Qed.

Lemma path_is_file_Ok_inv p s b s' :
  path_is_file p s = (Ok b, s') →
  b = is_file p (world s)
  ∧ s' = State (world s) (calls s ++ [(IsFile p, None)])%list.
Proof. unfold path_is_file. intros [= <- <-]. auto. Qed.

(** What a successful [create_aseg_surface] did and returns. *)
Lemma create_aseg_surface_Ok sd dest idx s p s' :
  create_aseg_surface sd dest idx s = (Ok p, s') →
  let uid := (uuid4 (world s)).1 in
  let mask := dest </> ("temp/aseg." +:+ uid +:+ ".mgz") in
  let surface := dest </> ("temp/aseg." +:+ uid +:+ ".surf") in
  let norm := sd </> "mri/norm.mgz" in
  let final := dest </> ("surfaces/aseg.final." +:+ join "_" idx +:+ ".vtk") in
  let binarize :=
    "mri_binarize --i " +:+ path_str (sd </> "mri/aseg.mgz")
    +:+ " --match " +:+ join " " idx +:+ " --o " +:+ path_str mask in
  let refine :=
    "mri_pretess " +:+ path_str mask +:+ " 1 " +:+ path_str norm
    +:+ " " +:+ path_str mask in
  let extract :=
    "mri_mc " +:+ path_str mask +:+ " 1 " +:+ path_str surface in
  let convert :=
    "mris_convert " +:+ path_str surface +:+ " " +:+ path_str final in
  let after_binarize :=
    (run_shell_command binarize (uuid4 (world s)).2).2 in
  p = final
  ∧ calls s'
    = (calls s
       ++ [(Uuid4, None); (Shell binarize, None); (IsFile norm, None)]
       ++ (if is_file norm after_binarize
           then [(Shell refine, None)] else [])
       ++ [(Shell extract, None); (Shell convert, None)])%list.
Proof.
  intros H. unfold create_aseg_surface in H. cbv zeta in H.
  apply bind_Ok_inv in H as (uid & s1 & Hu & H).
  apply fresh_uuid_Ok_inv in Hu as [-> ->].
  apply bind_Ok_inv in H as (u1 & s2 & H1 & H).
  apply shell_Ok_inv in H1 as ->.
  apply bind_Ok_inv in H as (b & s3 & H2 & H).
  apply path_is_file_Ok_inv in H2 as [-> ->].
  apply bind_Ok_inv in H as (u2 & s4 & H3 & H).
  apply bind_Ok_inv in H as (u3 & s5 & H4 & H).
  apply shell_Ok_inv in H4 as ->.
  apply bind_Ok_inv in H as (u4 & s6 & H5 & H).
  apply shell_Ok_inv in H5 as ->.
  apply ret_Ok_inv in H as [-> ->].
  cbn [world calls] in *. split; [reflexivity|].
  destruct (is_file _ _).
  - apply shell_Ok_inv in H3 as ->. cbn [calls].
    rewrite <- !app_assoc. reflexivity.
  - apply ret_Ok_inv in H3 as [_ ->]. cbn [calls].
    rewrite <- !app_assoc. reflexivity.
Qed.

(** What a successful [create_cereb_surface] did and returns. *)
Lemma create_cereb_surface_Ok sd dest idx s p s' :
  create_cereb_surface sd dest idx s = (Ok p, s') →
  let uid := (uuid4 (world s)).1 in
  let mask := dest </> ("temp/cereb." +:+ uid +:+ ".mgz") in
  let surface := dest </> ("temp/cereb." +:+ uid +:+ ".surf") in
  let norm := sd </> "mri/norm.mgz" in
  let final := dest </> ("surfaces/cereb.final." +:+ join "_" idx +:+ ".vtk") in
  let binarize :=
    "mri_binarize --i " +:+ path_str (sd </> "mri/cerebellum.CerebNet.nii.gz")
    +:+ " --match " +:+ join " " idx +:+ " --o " +:+ path_str mask in
  let refine :=
    "mri_pretess " +:+ path_str mask +:+ " 1 " +:+ path_str norm
    +:+ " " +:+ path_str mask in
  let extract :=
    "mri_mc " +:+ path_str mask +:+ " 1 " +:+ path_str surface in
  let convert :=
    "mris_convert " +:+ path_str surface +:+ " " +:+ path_str final in
  let after_binarize :=
    (run_shell_command binarize (uuid4 (world s)).2).2 in
  p = final
  ∧ calls s'
    = (calls s
       ++ [(Uuid4, None); (Shell binarize, None); (IsFile norm, None)]
       ++ (if is_file norm after_binarize
           then [(Shell refine, None)] else [])
       ++ [(Shell extract, None); (Shell convert, None)])%list.
Proof.
  intros H. unfold create_cereb_surface in H. cbv zeta in H.
  apply bind_Ok_inv in H as (uid & s1 & Hu & H).
  apply fresh_uuid_Ok_inv in Hu as [-> ->].
  apply bind_Ok_inv in H as (u1 & s2 & H1 & H).
  apply shell_Ok_inv in H1 as ->.
  apply bind_Ok_inv in H as (b & s3 & H2 & H).
  apply path_is_file_Ok_inv in H2 as [-> ->].
  apply bind_Ok_inv in H as (u2 & s4 & H3 & H).
  apply bind_Ok_inv in H as (u3 & s5 & H4 & H).
  apply shell_Ok_inv in H4 as ->.
  apply bind_Ok_inv in H as (u4 & s6 & H5 & H).
  apply shell_Ok_inv in H5 as ->.
  apply ret_Ok_inv in H as [-> ->].
  cbn [world calls] in *. split; [reflexivity|].
  destruct (is_file _ _).
  - apply shell_Ok_inv in H3 as ->. cbn [calls].
    rewrite <- !app_assoc. reflexivity.
  - apply ret_Ok_inv in H3 as [_ ->]. cbn [calls].
    rewrite <- !app_assoc. reflexivity.
Qed.

(** With a shell that does not fail, both extractions return. *)
Lemma create_surface_returns sd dest idx s :
  (∀ command w, (run_shell_command command w).1 = Ok tt) →
  (∃ p s', create_aseg_surface sd dest idx s = (Ok p, s'))
  ∧ (∃ p s', create_cereb_surface sd dest idx s = (Ok p, s')).
Proof.
  intros Hshell.
  split;
    unfold create_aseg_surface, create_cereb_surface, bind, shell, external,
      fresh_uuid, path_is_file, ret;
    cbv zeta;
    destruct (uuid4 (world s)) as [u w0]; cbn [world calls];
    repeat match goal with
    | |- context [run_shell_command ?c ?w] =>
        let r := fresh "r" in
        let w' := fresh "w" in
        let E := fresh "E" in
        destruct (run_shell_command c w) as [r w'] eqn:E;
        pose proof (Hshell c w) as Hr; rewrite E in Hr; cbn in Hr;
        subst r; clear E; cbn [raised world calls]
    | |- context [is_file ?p ?w] => destruct (is_file p w)
    end;
    eauto.
Qed.

Lemma surf_to_vtk_Ok source destination s p s' :
  surf_to_vtk source destination s = (Ok p, s') → p = destination.
Proof.
  intros H. unfold surf_to_vtk in H.
  apply bind_Ok_inv in H as (mesh & s1 & _ & H).
  apply bind_Ok_inv in H as (u & s2 & _ & H).
  apply ret_Ok_inv in H as [-> _]. reflexivity.
Qed.

Lemma for_each_comprehended {V} (build : V → io state Path) (f : V → Path)
    labels :
  (∀ v s p s', build v s = (Ok p, s') → p = f v) →
  ∀ acc s m s',
    for_each
      (λ surfaces '(label, value),
         (path <- build value ;; ret (<[label := path]> surfaces))%io)
      labels acc s = (Ok m, s') →
    m = comprehended f labels acc.
Proof.
  intros Hbuild. induction labels as [|[k v] labels IH]; intros acc s m s' H.
  - apply ret_Ok_inv in H as [-> _]. reflexivity.
  - cbn [for_each] in H.
    apply bind_Ok_inv in H as (acc1 & s1 & Hstep & H).
    apply bind_Ok_inv in Hstep as (p & s2 & Hp & Hstep).
    apply ret_Ok_inv in Hstep as [-> ->].
    apply Hbuild in Hp as ->. apply IH in H as ->. reflexivity.
Qed.

Lemma comprehended_cons {V} (f : V → Path) k v labels acc :
  comprehended f ((k, v) :: labels) acc
  = comprehended f labels (<[k := f v]> acc).
Proof. reflexivity. Qed.

Lemma comprehended_frame {V} (f : V → Path) labels :
  ∀ acc k, k ∉ labels.*1 → comprehended f labels acc !! k = acc !! k.
Proof.
  induction labels as [|[k0 v0] labels IH]; intros acc k Hk; [reflexivity|].
  rewrite fmap_cons in Hk. apply not_elem_of_cons in Hk as [Hne Hk].
  rewrite comprehended_cons, (IH _ _ Hk). apply lookup_insert_ne.
  intros Heq. apply Hne. symmetry. exact Heq.
Qed.

Lemma comprehended_lookup {V} (f : V → Path) labels :
  ∀ acc k v, NoDup labels.*1 → (k, v) ∈ labels →
    comprehended f labels acc !! k = Some (f v).
Proof.
  induction labels as [|[k0 v0] labels IH]; intros acc k v Hnd Hin.
  - inversion Hin.
  - rewrite fmap_cons in Hnd. apply NoDup_cons in Hnd as [Hfresh Hnd].
    rewrite comprehended_cons.
    apply elem_of_cons in Hin as [[= -> ->]|Hin].
    + rewrite (comprehended_frame f labels _ _ Hfresh).
      apply lookup_insert_eq.
    + apply IH; assumption.
Qed.

Lemma dict_comprehension_lookup {V} (build : V → io state Path)
    (f : V → Path) labels s m s' k v :
  (∀ v s p s', build v s = (Ok p, s') → p = f v) →
  NoDup labels.*1 →
  dict_comprehension build labels s = (Ok m, s') →
  (k, v) ∈ labels →
  m !! k = Some (f v).
Proof.
  intros Hbuild Hnd Hrun Hin. unfold dict_comprehension in Hrun.
  apply (for_each_comprehended build f labels Hbuild) in Hrun as ->.
  apply comprehended_lookup; assumption.
Qed.

Lemma aseg_labels_nodup : NoDup aseg_labels.*1.
Proof. compute_done. Qed.

Lemma cereb_labels_nodup : NoDup cereb_labels.*1.
Proof. compute_done. Qed.

Lemma cortical_labels_nodup : NoDup cortical_labels.*1.
Proof. compute_done. Qed.

Lemma elem_of_keys {V} (labels : list (string * V)) k :
  k ∈ labels.*1 → ∃ v, (k, v) ∈ labels.
Proof.
  intros Hk. apply list_elem_of_fmap in Hk as [[k' v] [-> Hin]].
  exists v. exact Hin.
Qed.

(** ** Properties of the surface builders *)

(** C5: every name of the subcortical pairs is a key of [aseg_labels],
    every name of the cerebellar pairs a key of [cereb_labels], every name
    of the cortical pairs a key of [cortical_labels]; and the dictionary
    each builder returns has an entry for every name paired in its
    catalogue. *)
Theorem paired_names_are_catalogued :
  (∀ l r, (l, r) ∈ structures_left_right →
          l ∈ aseg_labels.*1 ∧ r ∈ aseg_labels.*1)
  ∧ (∀ l r, (l, r) ∈ structures_left_right_cerebellum →
            l ∈ cereb_labels.*1 ∧ r ∈ cereb_labels.*1)
  ∧ (∀ l r, (l, r) ∈ cortex_2d_left_right →
            l ∈ cortical_labels.*1 ∧ r ∈ cortical_labels.*1)
  ∧ (∀ sd dest s m s' l r,
       create_aseg_surfaces sd dest s = (Ok m, s') →
       (l, r) ∈ structures_left_right →
       is_Some (m !! l) ∧ is_Some (m !! r))
  ∧ (∀ sd dest s m s' l r,
       create_cereb_surfaces sd dest s = (Ok m, s') →
       (l, r) ∈ structures_left_right_cerebellum →
       is_Some (m !! l) ∧ is_Some (m !! r))
  ∧ (∀ sd dest s m s' l r,
       create_cortical_surfaces sd dest s = (Ok m, s') →
       (l, r) ∈ cortex_2d_left_right →
       is_Some (m !! l) ∧ is_Some (m !! r)).
Proof.
  assert (Haseg : ∀ l r, (l, r) ∈ structures_left_right →
                         l ∈ aseg_labels.*1 ∧ r ∈ aseg_labels.*1).
  { intros l r Hin.
    refine (proj1 (Forall_forall
                     (λ p, p.1 ∈ aseg_labels.*1 ∧ p.2 ∈ aseg_labels.*1) _)
              _ (l, r) Hin).
    compute_done. }
  assert (Hcereb : ∀ l r, (l, r) ∈ structures_left_right_cerebellum →
                          l ∈ cereb_labels.*1 ∧ r ∈ cereb_labels.*1).
  { intros l r Hin.
    refine (proj1 (Forall_forall
                     (λ p, p.1 ∈ cereb_labels.*1 ∧ p.2 ∈ cereb_labels.*1) _)
              _ (l, r) Hin).
    compute_done. }
  assert (Hcort : ∀ l r, (l, r) ∈ cortex_2d_left_right →
                         l ∈ cortical_labels.*1 ∧ r ∈ cortical_labels.*1).
  { intros l r Hin.
    refine (proj1 (Forall_forall
                     (λ p, p.1 ∈ cortical_labels.*1 ∧ p.2 ∈ cortical_labels.*1) _)
              _ (l, r) Hin).
    compute_done. }
  split; [exact Haseg|]. split; [exact Hcereb|]. split; [exact Hcort|].
  split; [|split].
  - intros sd dest s m s' l r Hrun Hin.
    destruct (Haseg l r Hin) as [Hl Hr].
    apply elem_of_keys in Hl as [vl Hl]. apply elem_of_keys in Hr as [vr Hr].
    split; eexists;
      eapply (dict_comprehension_lookup _
                (λ idx, dest </> ("surfaces/aseg.final." +:+ join "_" idx
                                  +:+ ".vtk")));
      eauto using aseg_labels_nodup;
      intros v s0 p s0' Hp; apply (create_aseg_surface_Ok _ _ _ _ _ _ Hp).
  - intros sd dest s m s' l r Hrun Hin.
    destruct (Hcereb l r Hin) as [Hl Hr].
    apply elem_of_keys in Hl as [vl Hl]. apply elem_of_keys in Hr as [vr Hr].
    split; eexists;
      eapply (dict_comprehension_lookup _
                (λ idx, dest </> ("surfaces/cereb.final." +:+ join "_" idx
                                  +:+ ".vtk")));
      eauto using cereb_labels_nodup;
      intros v s0 p s0' Hp; apply (create_cereb_surface_Ok _ _ _ _ _ _ Hp).
  - intros sd dest s m s' l r Hrun Hin.
    destruct (Hcort l r Hin) as [Hl Hr].
    apply elem_of_keys in Hl as [vl Hl]. apply elem_of_keys in Hr as [vr Hr].
    split; eexists;
      eapply (dict_comprehension_lookup _
                (λ name, dest </> "surfaces" </> (name +:+ ".vtk")));
      eauto using cortical_labels_nodup;
      intros v s0 p s0' Hp; apply (surf_to_vtk_Ok _ _ _ _ _ Hp).
Qed.

(** C6: a [create_aseg_surface] that returns has run, in this order, the
    binarisation of [mri/aseg.mgz] on the label codes into a temporary mask,
    the refinement of that mask in place exactly when [mri/norm.mgz] is a
    file at that moment, marching cubes on the mask at label value 1, and the
    conversion to VTK -- four shell commands, three when there is no norm
    volume -- and it returns
    [destination/surfaces/aseg.final.<codes joined by _>.vtk]. The same holds
    of [create_cereb_surface], on [mri/cerebellum.CerebNet.nii.gz] and
    [cereb] in place of [aseg]. Both return when the shell does not fail. *)
Theorem surface_extraction_steps sd dest idx s p s' :
  (create_aseg_surface sd dest idx s = (Ok p, s') →
    let uid := (uuid4 (world s)).1 in
    let mask := dest </> ("temp/aseg." +:+ uid +:+ ".mgz") in
    let surface := dest </> ("temp/aseg." +:+ uid +:+ ".surf") in
    let norm := sd </> "mri/norm.mgz" in
    let final := dest </> ("surfaces/aseg.final." +:+ join "_" idx +:+ ".vtk") in
    let binarize :=
      "mri_binarize --i " +:+ path_str (sd </> "mri/aseg.mgz")
      +:+ " --match " +:+ join " " idx +:+ " --o " +:+ path_str mask in
    let refine :=
      "mri_pretess " +:+ path_str mask +:+ " 1 " +:+ path_str norm
      +:+ " " +:+ path_str mask in
    let extract :=
      "mri_mc " +:+ path_str mask +:+ " 1 " +:+ path_str surface in
    let convert :=
      "mris_convert " +:+ path_str surface +:+ " " +:+ path_str final in
    let after_binarize :=
      (run_shell_command binarize (uuid4 (world s)).2).2 in
    p = final
    ∧ calls s'
      = (calls s
         ++ [(Uuid4, None); (Shell binarize, None); (IsFile norm, None)]
         ++ (if is_file norm after_binarize
             then [(Shell refine, None)] else [])
         ++ [(Shell extract, None); (Shell convert, None)])%list)
  ∧ (create_cereb_surface sd dest idx s = (Ok p, s') →
      let uid := (uuid4 (world s)).1 in
      let mask := dest </> ("temp/cereb." +:+ uid +:+ ".mgz") in
      let surface := dest </> ("temp/cereb." +:+ uid +:+ ".surf") in
      let norm := sd </> "mri/norm.mgz" in
      let final := dest </> ("surfaces/cereb.final." +:+ join "_" idx +:+ ".vtk") in
      let binarize :=
        "mri_binarize --i " +:+ path_str (sd </> "mri/cerebellum.CerebNet.nii.gz")
        +:+ " --match " +:+ join " " idx +:+ " --o " +:+ path_str mask in
      let refine :=
        "mri_pretess " +:+ path_str mask +:+ " 1 " +:+ path_str norm
        +:+ " " +:+ path_str mask in
      let extract :=
        "mri_mc " +:+ path_str mask +:+ " 1 " +:+ path_str surface in
      let convert :=
        "mris_convert " +:+ path_str surface +:+ " " +:+ path_str final in
      let after_binarize :=
        (run_shell_command binarize (uuid4 (world s)).2).2 in
      p = final
      ∧ calls s'
        = (calls s
           ++ [(Uuid4, None); (Shell binarize, None); (IsFile norm, None)]
           ++ (if is_file norm after_binarize
               then [(Shell refine, None)] else [])
           ++ [(Shell extract, None); (Shell convert, None)])%list)
  ∧ ((∀ command w, (run_shell_command command w).1 = Ok tt) →
     (∃ p s', create_aseg_surface sd dest idx s = (Ok p, s'))
     ∧ (∃ p s', create_cereb_surface sd dest idx s = (Ok p, s'))).
Proof.
  split; [|split]; intros Hrun.
  - exact (create_aseg_surface_Ok sd dest idx s p s' Hrun).
  - exact (create_cereb_surface_Ok sd dest idx s p s' Hrun).
  - exact (create_surface_returns sd dest idx s Hrun).
Qed.

(** C7: in [create_aseg_surfaces], [create_cereb_surfaces] and
    [create_surfaces], a call that raises -- a failing command of some
    structure's extraction -- is the last call of the run: no later step of
    that structure and no later structure is started, and the builder raises
    that exception instead of returning a mapping. *)
Theorem extraction_failure_aborts_batch sd dest sc sb :
  aborts_at_first_failure (create_aseg_surfaces sd dest)
  ∧ aborts_at_first_failure (create_cereb_surfaces sd dest)
  ∧ aborts_at_first_failure (create_surfaces sd dest sc sb).
Proof.
  split; [|split]; intros w pre c e post;
    apply failstop_first_failure_is_last.
  - apply failstop_create_aseg_surfaces.
  - apply failstop_create_cereb_surfaces.
  - apply failstop_create_surfaces.
Qed.

End Success.

(** ** Concrete runs of the builders *)

Import Examples.

Lemma surface_extraction_steps_witness :
  ∃ s',
    @create_aseg_surface all_good "/subjects/s1" "/out" ["17"]
      (@start all_good 0)
    = (Ok "/out/surfaces/aseg.final.17.vtk", s')
    ∧ @calls all_good s'
      = [ (Uuid4, None);
          (Shell ("mri_binarize --i /subjects/s1/mri/aseg.mgz --match 17"
                  +:+ " --o /out/temp/aseg.0.mgz"), None);
          (@IsFile all_good "/subjects/s1/mri/norm.mgz", None);
          (Shell ("mri_pretess /out/temp/aseg.0.mgz 1"
                  +:+ " /subjects/s1/mri/norm.mgz /out/temp/aseg.0.mgz"),
           None);
          (Shell "mri_mc /out/temp/aseg.0.mgz 1 /out/temp/aseg.0.surf", None);
          (Shell ("mris_convert /out/temp/aseg.0.surf"
                  +:+ " /out/surfaces/aseg.final.17.vtk"), None) ].
Proof.
  destruct (@create_aseg_surface all_good "/subjects/s1" "/out" ["17"]
              (@start all_good 0)) as [r s'] eqn:Hrun.
  assert (Hok : ∃ p, r = Ok p).
  { pose proof (f_equal fst Hrun) as H. vm_compute in H.
    rewrite <- H. eauto. }
  destruct Hok as [p ->].
  destruct (proj1 (@surface_extraction_steps all_good _ _ _ _ _ _) Hrun)
    as [-> Hcalls].
  exists s'. split; [vm_compute; reflexivity|].
  rewrite Hcalls. vm_compute. reflexivity.
Defined.

Lemma extraction_failure_aborts_batch_witness :
  (@create_surfaces brain_stem_fails "/subjects/s1" "/out" false false
     (@start brain_stem_fails 0)).1
  = Raise (RuntimeError
             ("mri_binarize --i /subjects/s1/mri/aseg.mgz --match 16"
              +:+ " --o /out/temp/aseg.25.mgz"))
  ∧ length (@calls brain_stem_fails
              (@create_surfaces brain_stem_fails "/subjects/s1" "/out"
                 false false (@start brain_stem_fails 0)).2)
    = 32.
Proof.
  split; [|vm_compute; reflexivity].
  refine (proj2
    (proj2 (proj2 (@extraction_failure_aborts_batch brain_stem_fails
                     "/subjects/s1" "/out" false false))
       0
       (take 31 (@calls brain_stem_fails
                   (@create_surfaces brain_stem_fails "/subjects/s1" "/out"
                      false false (@start brain_stem_fails 0)).2))
       (Shell ("mri_binarize --i /subjects/s1/mri/aseg.mgz --match 16"
               +:+ " --o /out/temp/aseg.25.mgz"))
       (RuntimeError
          ("mri_binarize --i /subjects/s1/mri/aseg.mgz --match 16"
           +:+ " --o /out/temp/aseg.25.mgz"))
       [] _)).
  vm_compute. reflexivity.
Defined.


End SurfacesFacts.

(** * The vermis structures: built, never scored *)

Module VermisFacts.
Import Asymmetry Surfaces Statements AsymmetryFacts SurfacesFacts.

Section Vermis.

Context {P : Platform}.
Variable compute_distance : list float -> list float -> string -> float.

Local Notation "p </> child" := (joinpath p child)
  (at level 40, left associativity).

(** C10: [cereb_labels] has six vermis entries, the last of which unions the
    label codes of the other five; a [create_cereb_surfaces] that returns
    has built a surface for each of them; no pair of [compute_asymmetry]
    names a vermis structure, whatever the flags; no key of a returned
    mapping mentions one; and two spectra mappings that differ only at
    vermis names give the same run, so that vermis spectra are never read. *)
Theorem vermis_surfaces_are_built_but_never_scored :
  filter (λ kv, mentions_vermis kv.1 = true) cereb_labels
  = [ ("Cbm_Vermis_VI", ["606"]);
      ("Cbm_Vermis_IX", ["624"]);
      ("Cbm_Vermis_X", ["627"]);
      ("Cbm_Vermis_VII", ["630"]);
      ("Cbm_Vermis_VIII", ["631"]);
      ("Cbm_Vermis", ["631"; "630"; "627"; "624"; "606"]) ]
  ∧ (∀ sd dest s m s' name codes,
       create_cereb_surfaces sd dest s = (Ok m, s') →
       (name, codes) ∈ cereb_labels →
       mentions_vermis name = true →
       m !! name
       = Some (dest </> ("surfaces/cereb.final." +:+ join "_" codes
                         +:+ ".vtk")))
  ∧ (∀ sc sb name,
       name ∈ names (structures sc sb) → mentions_vermis name = false)
  ∧ (∀ eigenvalues distance sc sb out m out' k,
       compute_asymmetry compute_distance eigenvalues distance sc sb out
       = (Ok m, out') →
       is_Some (m !! k) → mentions_vermis k = false)
  ∧ (∀ eigenvalues1 eigenvalues2 distance sc sb out,
       (∀ name, mentions_vermis name = false →
                eigenvalues1 !! name = eigenvalues2 !! name) →
       compute_asymmetry compute_distance eigenvalues1 distance sc sb out
       = compute_asymmetry compute_distance eigenvalues2 distance sc sb out).
Proof.
  split; [vm_compute; reflexivity|]. split; [|split; [|split]].
  - intros sd dest s m s' name codes Hrun Hin _.
    apply (dict_comprehension_lookup
             (create_cereb_surface sd dest)
             (λ idx, dest </> ("surfaces/cereb.final." +:+ join "_" idx
                               +:+ ".vtk"))
             cereb_labels s m s' name codes);
      auto using cereb_labels_nodup.
    intros v s0 p s0' Hp. apply (create_cereb_surface_Ok _ _ _ _ _ _ Hp).
  - intros sc sb name. apply selected_names_not_vermis.
  - intros e d sc sb out m out' k Hrun Hk.
    unfold compute_asymmetry in Hrun. apply for_each_Ok_dom in Hrun.
    rewrite dom_empty_L, union_empty_l_L in Hrun.
    apply elem_of_dom in Hk. rewrite Hrun in Hk.
    apply elem_of_list_to_set in Hk.
    apply (selected_keys_not_vermis sc sb k Hk).
  - intros e1 e2 d sc sb out Hagree. unfold compute_asymmetry.
    apply for_each_trimmed. intros k Hk.
    rewrite (Hagree k (selected_names_not_vermis sc sb k Hk)). reflexivity.
Qed.

End Vermis.

Import Examples.

(** A run of all builders that succeeds returns sixty surfaces: thirty from
    the segmentation, twenty-six from the cerebellar parcellation, six of
    them vermis surfaces, and four cortical ones. *)
Example create_surfaces_all_good :
  match (@create_surfaces all_good "/subjects/s1" "/out" false false
           (@start all_good 0)).1 with
  | Ok surfaces =>
      size surfaces = 60
      ∧ surfaces !! "Cbm_Vermis"
        = Some "/out/surfaces/cereb.final.631_630_627_624_606.vtk"
  | Raise _ => False
  end.
Proof. vm_compute. split; reflexivity. Qed.

(** Without a norm volume the refinement is skipped, not an error: three
    commands run, and the surface is returned all the same. *)
Example create_cereb_surface_no_norm :
  @create_cereb_surface no_norm "/subjects/s1" "/out" ["606"]
    (@start no_norm 0)
  = (Ok "/out/surfaces/cereb.final.606.vtk",
     @State no_norm 4
       [ (Uuid4, None);
         (Shell ("mri_binarize --i /subjects/s1/mri/cerebellum.CerebNet.nii.gz"
                 +:+ " --match 606 --o /out/temp/cereb.0.mgz"), None);
         (@IsFile no_norm "/subjects/s1/mri/norm.mgz", None);
         (Shell "mri_mc /out/temp/cereb.0.mgz 1 /out/temp/cereb.0.surf",
          None);
         (Shell ("mris_convert /out/temp/cereb.0.surf"
                 +:+ " /out/surfaces/cereb.final.606.vtk"), None) ]).
Proof. vm_compute. reflexivity. Qed.

Lemma vermis_surfaces_are_built_but_never_scored_witness :
  compute_asymmetry euclidean with_vermis "euc" false false []
  = compute_asymmetry euclidean healthy "euc" false false [].
Proof.
  apply (proj2 (proj2 (proj2 (proj2
           (@vermis_surfaces_are_built_but_never_scored all_good
              euclidean))))).
  intros name Hname. unfold with_vermis. apply lookup_insert_ne.
  intros <-. vm_compute in Hname. discriminate.
Defined.

End VermisFacts.

(** * More on the asymmetry scorer *)

Module ScorerExtras.
Import Asymmetry Statements Observations AsymmetryFacts.

Lemma for_each_app {S A B} (body : B → A → io S B) xs ys acc s :
  for_each body (xs ++ ys) acc s
  = match for_each body xs acc s with
    | (Ok acc', s') => for_each body ys acc' s'
    | (Raise e, s') => (Raise e, s')
    end.
Proof.
  revert acc s. induction xs as [|x xs IH]; intros acc s; [reflexivity|].
  cbn [app for_each]. unfold bind.
  destruct (body acc x s) as [[acc1|e] s1]; [apply IH|reflexivity].
Qed.

Lemma flagged_present e l r sl sr :
  e !! l = Some sl → e !! r = Some sr →
  flagged e (l, r) = isnan_any (drop 2 sl) || isnan_any (drop 2 sr).
Proof. intros Hl Hr. unfold flagged. cbn. rewrite Hl, Hr. reflexivity. Qed.

Lemma notices_cons e p pairs :
  notices e (p :: pairs)
  = ((if flagged e p then [notice p] else []) ++ notices e pairs)%list.
Proof.
  unfold notices. rewrite filter_cons.
  destruct (flagged e p); case_decide; try congruence; reflexivity.
Qed.

Lemma covers_app e xs ys :
  covers e (xs ++ ys) ↔ covers e xs ∧ covers e ys.
Proof.
  unfold covers, names. rewrite bind_app. apply Forall_app.
Qed.

Lemma covers_subseteq e xs ys :
  (∀ p, p ∈ xs → p ∈ ys) → covers e ys → covers e xs.
Proof.
  unfold covers. rewrite !Forall_forall. intros Hsub Hys name Hname.
  apply elem_of_names in Hname as (l & r & Hin & Hn).
  apply Hys, elem_of_names. exists l, r. auto.
Qed.

Lemma structures_subseteq sc sb p :
  p ∈ structures sc sb → p ∈ structures false false.
Proof.
  unfold structures. destruct sc, sb; cbn [negb];
    rewrite ?elem_of_app; tauto.
Qed.

Section Scorer.

Variable compute_distance : list float -> list float -> string -> float.

Local Abbreviation score := (compute_asymmetry compute_distance).
Local Abbreviation step := (record_pair compute_distance).

(** The lines a pass over covered pairs prints. *)
Lemma for_each_notices e d pairs :
  ∀ acc out, covers e pairs →
  (for_each (step e d) pairs acc out).2 = (out ++ notices e pairs)%list.
Proof.
  induction pairs as [|[l r] pairs IH]; intros acc out Hcov.
  - cbn. rewrite app_nil_r. reflexivity.
  - apply covers_cons in Hcov as ([sl Hl] & [sr Hr] & Hcov).
    cbn [for_each]. unfold bind at 1.
    rewrite (record_pair_run compute_distance e d acc l r sl sr out Hl Hr).
    rewrite notices_cons, (flagged_present e l r sl sr Hl Hr).
    destruct (isnan_any (drop 2 sl) || isnan_any (drop 2 sr)).
    + rewrite (IH _ _ Hcov), <- app_assoc. reflexivity.
    + rewrite (IH _ _ Hcov). reflexivity.
Qed.

(** X1: on a spectra mapping that covers the selected names, the lines the
    run prints are the notices of the flagged pairs, one each, in the order
    of the pairs, and nothing else. *)
Theorem printed_lines_are_the_notices e d sc sb out :
  covers e (structures sc sb) →
  ∃ m,
    score e d sc sb out
    = (Ok m, (out ++ notices e (structures sc sb))%list).
Proof.
  intros Hcov. unfold compute_asymmetry.
  destruct (for_each_covered compute_distance e d (structures sc sb) ∅ out
              Hcov)
    as (m & printed & Hrun & _).
  pose proof (for_each_notices e d (structures sc sb) ∅ out Hcov) as Hout.
  rewrite Hrun in Hout. cbn in Hout. exists m. rewrite Hrun, Hout.
  reflexivity.
Qed.

(** X2: the run stops at the first pair, in the order of the pairs, that
    has a name without spectrum, and raises [KeyError] for the left name if
    that one is missing and for the right name otherwise; the notices of the
    pairs before it have been printed. *)
Theorem key_error_names_first_missing e d sc sb out pre l r post :
  structures sc sb = (pre ++ (l, r) :: post)%list →
  covers e pre →
  e !! l = None ∨ e !! r = None →
  score e d sc sb out
  = (Raise (KeyError (match e !! l with Some _ => r | None => l end)),
     (out ++ notices e pre)%list).
Proof.
  intros Hsplit Hcov Hmiss. unfold compute_asymmetry.
  rewrite Hsplit, for_each_app.
  destruct (for_each_covered compute_distance e d pre ∅ out Hcov)
    as (m & printed & Hrun & _).
  pose proof (for_each_notices e d pre ∅ out Hcov) as Hout.
  rewrite Hrun in Hout. cbn in Hout. rewrite Hrun, Hout.
  cbn [for_each]. unfold bind.
  destruct (e !! l) as [sl|] eqn:Hl.
  - destruct Hmiss as [?|Hr]; [discriminate|].
    rewrite (record_pair_missing_right compute_distance e d m l r sl _ Hl Hr).
    reflexivity.
  - rewrite (record_pair_missing_left compute_distance e d m l r _ Hl).
    reflexivity.
Qed.

(** X3: skipping the cortical or the cerebellar pairs removes their entries
    and changes no other: the result with flags is a submap of the result
    without. *)
Theorem skipping_keeps_other_distances e d sc sb out :
  covers e (structures false false) →
  ∃ m full printed printed',
    score e d sc sb out = (Ok m, printed)
    ∧ score e d false false out = (Ok full, printed')
    ∧ m ⊆ full.
Proof.
  intros Hfull.
  assert (Hcov : covers e (structures sc sb)).
  { eapply covers_subseteq; [|exact Hfull]. apply structures_subseteq. }
  unfold compute_asymmetry.
  destruct (for_each_covered compute_distance e d (structures sc sb) ∅ out
              Hcov)
    as (m & printed & Hrun & Hdom & Hval & _).
  destruct (for_each_covered compute_distance e d (structures false false)
              ∅ out Hfull)
    as (full & printed' & Hrun' & _ & Hval' & _).
  exists m, full, (out ++ printed)%list, (out ++ printed')%list.
  split; [exact Hrun|]. split; [exact Hrun'|].
  apply map_subseteq_spec. intros k v Hk.
  assert (Hin : k ∈ dom m) by (apply elem_of_dom; eauto).
  rewrite Hdom, dom_empty_L, union_empty_l_L in Hin.
  apply elem_of_list_to_set, list_elem_of_fmap in Hin as [[l r] [-> Hin]].
  destruct (covers_lookup _ _ _ _ Hcov Hin) as [[sl Hl] [sr Hr]].
  change (pair_key (l, r)) with (l +:+ "_" +:+ r) in Hk |- *.
  rewrite (Hval (keys_nodup sc sb) l r sl sr Hin Hl Hr) in Hk.
  rewrite (Hval' (keys_nodup false false) l r sl sr
             (structures_subseteq sc sb _ Hin) Hl Hr).
  exact Hk.
Qed.

(** X4: a change to the spectrum of one structure changes the distance of
    no pair that does not name that structure. *)
Theorem spectrum_change_is_local e1 e2 d sc sb out name :
  covers e1 (structures sc sb) →
  covers e2 (structures sc sb) →
  (∀ k, k ≠ name → e1 !! k = e2 !! k) →
  ∃ m1 m2 printed1 printed2,
    score e1 d sc sb out = (Ok m1, printed1)
    ∧ score e2 d sc sb out = (Ok m2, printed2)
    ∧ ∀ l r, (l, r) ∈ structures sc sb → l ≠ name → r ≠ name →
        m1 !! (l +:+ "_" +:+ r) = m2 !! (l +:+ "_" +:+ r).
Proof.
  intros Hcov1 Hcov2 Hsame. unfold compute_asymmetry.
  destruct (for_each_covered compute_distance e1 d (structures sc sb) ∅ out
              Hcov1)
    as (m1 & printed1 & Hrun1 & _ & Hval1 & _).
  destruct (for_each_covered compute_distance e2 d (structures sc sb) ∅ out
              Hcov2)
    as (m2 & printed2 & Hrun2 & _ & Hval2 & _).
  exists m1, m2, (out ++ printed1)%list, (out ++ printed2)%list.
  split; [exact Hrun1|]. split; [exact Hrun2|].
  intros l r Hin Hl Hr.
  destruct (covers_lookup _ _ _ _ Hcov1 Hin) as [[sl Hsl] [sr Hsr]].
  rewrite (Hval1 (keys_nodup sc sb) l r sl sr Hin Hsl Hsr).
  rewrite (Hsame l Hl) in Hsl. rewrite (Hsame r Hr) in Hsr.
  rewrite (Hval2 (keys_nodup sc sb) l r sl sr Hin Hsl Hsr).
  reflexivity.
Qed.

(** X5: the run reads the spectra of the selected names only: two mappings
    that agree on them give the same result, the same printed lines and the
    same [KeyError], whatever else they hold or lack. *)
Theorem unselected_spectra_are_never_read e1 e2 d sc sb out :
  (∀ name, name ∈ names (structures sc sb) → e1 !! name = e2 !! name) →
  score e1 d sc sb out = score e2 d sc sb out.
Proof.
  intros Hagree. unfold compute_asymmetry. apply for_each_trimmed.
  intros k Hk. rewrite (Hagree k Hk). reflexivity.
Qed.

(** X6: spectra of at most two entries are trimmed to nothing: the pair is
    not flagged even when those entries are NaN, and the distance function
    is called on two empty spectra. *)
Theorem short_spectra_are_never_flagged e d sc sb out l r sl sr :
  covers e (structures sc sb) →
  (l, r) ∈ structures sc sb →
  e !! l = Some sl → e !! r = Some sr →
  (length sl ≤ 2)%nat → (length sr ≤ 2)%nat →
  ∃ m printed,
    score e d sc sb out = (Ok m, printed)
    ∧ m !! (l +:+ "_" +:+ r) = Some (compute_distance [] [] d)
    ∧ flagged e (l, r) = false.
Proof.
  intros Hcov Hin Hl Hr Hsl Hsr. unfold compute_asymmetry.
  destruct (for_each_covered compute_distance e d (structures sc sb) ∅ out
              Hcov)
    as (m & printed & Hrun & _ & Hval & _).
  exists m, (out ++ printed)%list. split; [exact Hrun|].
  rewrite (Hval (keys_nodup sc sb) l r sl sr Hin Hl Hr).
  rewrite (flagged_present e l r sl sr Hl Hr).
  rewrite (drop_ge sl 2 Hsl), (drop_ge sr 2 Hsr). split; reflexivity.
Qed.

End Scorer.

(** ** Concrete runs *)

Import Examples MoreExamples.

Lemma printed_lines_are_the_notices_witness :
  ∃ m,
    compute_asymmetry euclidean nan_left_hippocampus "euc" false false []
    = (Ok m,
       ["NaNs found for Left-Hippocampus or Right-Hippocampus, "
        +:+ "skipping asymmetry computation..."]).
Proof.
  destruct (printed_lines_are_the_notices euclidean nan_left_hippocampus
              "euc" false false [])
    as [m Hrun].
  - unfold covers. compute_done.
  - exists m. rewrite Hrun. f_equal.
Defined.

Lemma key_error_names_first_missing_witness :
  compute_asymmetry euclidean nan_then_missing "euc" false false []
  = (Raise (KeyError "Right-Amygdala"),
     ["NaNs found for Left-Hippocampus or Right-Hippocampus, "
      +:+ "skipping asymmetry computation..."]).
Proof.
  etransitivity.
  - apply (key_error_names_first_missing euclidean nan_then_missing "euc"
             false false [] (take 9 (structures false false))
             "Left-Amygdala" "Right-Amygdala"
             (drop 10 (structures false false))).
    + reflexivity.
    + unfold covers. compute_done.
    + right. vm_compute. reflexivity.
  - vm_compute. reflexivity.
Defined.

Lemma skipping_keeps_other_distances_witness :
  ∃ m full printed printed',
    compute_asymmetry euclidean healthy "euc" true true [] = (Ok m, printed)
    ∧ compute_asymmetry euclidean healthy "euc" false false []
      = (Ok full, printed')
    ∧ m ⊆ full.
Proof.
  apply (skipping_keeps_other_distances euclidean healthy "euc" true true []).
  unfold covers. compute_done.
Defined.

Lemma spectrum_change_is_local_witness :
  ∃ m1 m2 printed1 printed2,
    compute_asymmetry euclidean healthy "euc" false false []
    = (Ok m1, printed1)
    ∧ compute_asymmetry euclidean nan_left_hippocampus "euc" false false []
      = (Ok m2, printed2)
    ∧ m1 !! "Left-Amygdala_Right-Amygdala"
      = m2 !! "Left-Amygdala_Right-Amygdala".
Proof.
  destruct (spectrum_change_is_local euclidean healthy nan_left_hippocampus
              "euc" false false [] "Left-Hippocampus")
    as (m1 & m2 & printed1 & printed2 & Hrun1 & Hrun2 & Hsame).
  - unfold covers. compute_done.
  - unfold covers. compute_done.
  - intros k Hk. unfold nan_left_hippocampus. symmetry.
    apply lookup_insert_ne. congruence.
  - exists m1, m2, printed1, printed2. split; [exact Hrun1|].
    split; [exact Hrun2|].
    apply (Hsame "Left-Amygdala" "Right-Amygdala");
      [compute_done|discriminate|discriminate].
Defined.

Lemma unselected_spectra_are_never_read_witness :
  compute_asymmetry euclidean no_cortex "euc" true false []
  = compute_asymmetry euclidean healthy "euc" true false [].
Proof.
  apply unselected_spectra_are_never_read.
  intros name Hname.
  assert (Hne : Forall (λ n, n ≠ "lh-white-2d" ∧ n ≠ "rh-white-2d"
                             ∧ n ≠ "lh-pial-2d" ∧ n ≠ "rh-pial-2d")
                  (names (structures true false))) by compute_done.
  rewrite Forall_forall in Hne.
  destruct (Hne name Hname) as (H1 & H2 & H3 & H4).
  unfold no_cortex.
  rewrite !lookup_delete_ne by congruence. reflexivity.
Defined.

Lemma short_spectra_are_never_flagged_witness :
  ∃ m printed,
    compute_asymmetry euclidean short_caudate "euc" false false []
    = (Ok m, printed)
    ∧ m !! "Left-Caudate_Right-Caudate" = Some (euclidean [] [] "euc")
    ∧ flagged short_caudate ("Left-Caudate", "Right-Caudate") = false.
Proof.
  apply (short_spectra_are_never_flagged euclidean short_caudate "euc"
           false false [] "Left-Caudate" "Right-Caudate"
           [nan; nan]%float []).
  - unfold covers. compute_done.
  - compute_done.
  - vm_compute. reflexivity.
  - vm_compute. reflexivity.
  - cbn. lia.
  - cbn. lia.
Defined.

End ScorerExtras.

(** * More on the surface builders *)

Module BuilderExtras.
Import Asymmetry Surfaces Ingestion Statements Observations AsymmetryFacts
  SurfacesFacts.

Lemma all_labels_nodup :
  NoDup (aseg_labels.*1 ++ cereb_labels.*1 ++ cortical_labels.*1).
Proof. compute_done. Qed.

Lemma volumetric_files_nodup : NoDup volumetric_files.*2.
Proof. compute_done. Qed.

Lemma union_rotate (A B C : gset string) : C ∪ (B ∪ A) = A ∪ (B ∪ C).
Proof.
  rewrite (comm_L (∪) C), (comm_L (∪) B), <- (assoc_L (∪)). reflexivity.
Qed.

Lemma NoDup_snd_inj {A B} (l : list (A * B)) a b c :
  NoDup l.*2 → (a, c) ∈ l → (b, c) ∈ l → a = b.
Proof.
  induction l as [|[x y] l IH]; intros Hnd Ha Hb; [inversion Ha|].
  rewrite fmap_cons in Hnd. apply NoDup_cons in Hnd as [Hfresh Hnd].
  apply elem_of_cons in Ha as [[= -> ->]|Ha];
    apply elem_of_cons in Hb as [[= ->]|Hb].
  - reflexivity.
  - destruct Hfresh. apply list_elem_of_fmap. exists (b, y). auto.
  - subst y. destruct Hfresh. apply list_elem_of_fmap. exists (a, c). auto.
  - apply IH; assumption.
Qed.

(** ** File names and label codes *)

Lemma string_app_length (a b : string) :
  String.length (a +:+ b) = String.length a + String.length b.
Proof.
  induction a as [|c a IH]; [reflexivity|].
  change (String c a +:+ b) with (String c (a +:+ b)). cbn. rewrite IH.
  reflexivity.
Qed.

Lemma string_app_cancel_l (a x y : string) : a +:+ x = a +:+ y → x = y.
Proof.
  induction a as [|c a IH]; [auto|].
  change (String c a +:+ x) with (String c (a +:+ x)).
  change (String c a +:+ y) with (String c (a +:+ y)).
  intros [= H]. auto.
Qed.

Lemma string_app_cancel_r (t x y : string) : x +:+ t = y +:+ t → x = y.
Proof.
  revert y. induction x as [|c x IH]; intros [|c' y] H.
  - reflexivity.
  - apply (f_equal String.length) in H.
    change (String c' y +:+ t) with (String c' (y +:+ t)) in H.
    change (EmptyString +:+ t) with t in H.
    cbn in H. rewrite string_app_length in H. lia.
  - apply (f_equal String.length) in H.
    change (String c x +:+ t) with (String c (x +:+ t)) in H.
    change (EmptyString +:+ t) with t in H.
    cbn in H. rewrite string_app_length in H. lia.
  - change (String c x +:+ t) with (String c (x +:+ t)) in H.
    change (String c' y +:+ t) with (String c' (y +:+ t)) in H.
    injection H as -> H. f_equal. apply IH. exact H.
Qed.

Lemma prefix_empty (s : string) : String.prefix EmptyString s = true.
Proof. destruct s; reflexivity. Qed.

Lemma contains_underscore_cons c s :
  contains "_" (String c s) = false →
  String c EmptyString ≠ "_" ∧ contains "_" s = false.
Proof.
  cbn [contains]. intros H. apply orb_false_elim in H as [Hp Hs].
  split; [|exact Hs]. intros [= ->]. cbn in Hp.
  rewrite prefix_empty in Hp. discriminate.
Qed.

(** A code without underscore ends at the first underscore. *)
Lemma underscore_splits a b x y :
  contains "_" a = false → contains "_" b = false →
  a +:+ "_" +:+ x = b +:+ "_" +:+ y → a = b ∧ x = y.
Proof.
  revert b. induction a as [|c a IH]; intros [|c' b] Ha Hb H.
  - cbv [String.append] in H. injection H as ->. auto.
  - cbv [String.append] in H. injection H as <- _.
    apply contains_underscore_cons in Hb as [Hb _]. destruct Hb. reflexivity.
  - cbv [String.append] in H. injection H as -> _.
    apply contains_underscore_cons in Ha as [Ha _]. destruct Ha. reflexivity.
  - change (String c a +:+ "_" +:+ x)
      with (String c (a +:+ "_" +:+ x)) in H.
    change (String c' b +:+ "_" +:+ y)
      with (String c' (b +:+ "_" +:+ y)) in H.
    injection H as -> H.
    apply contains_underscore_cons in Ha as [_ Ha].
    apply contains_underscore_cons in Hb as [_ Hb].
    destruct (IH b Ha Hb H) as [-> ->]. auto.
Qed.

Lemma join_cons2 sep a b rest :
  join sep (a :: b :: rest) = a +:+ sep +:+ join sep (b :: rest).
Proof. reflexivity. Qed.

(** [join] on underscores can be undone when no code has an underscore. *)
Lemma join_underscore_inj (l1 l2 : list string) :
  Forall (λ code, contains "_" code = false) l1 →
  Forall (λ code, contains "_" code = false) l2 →
  l1 ≠ [] → l2 ≠ [] →
  join "_" l1 = join "_" l2 → l1 = l2.
Proof.
  revert l2. induction l1 as [|a l1 IH]; intros l2 H1 H2 Hn1 Hn2 H;
    [contradiction|].
  destruct l2 as [|b l2]; [contradiction|].
  apply Forall_cons in H1 as [Ha H1]. apply Forall_cons in H2 as [Hb H2].
  destruct l1 as [|a2 l1], l2 as [|b2 l2].
  - cbn in H. subst. reflexivity.
  - rewrite join_cons2 in H. change (join "_" [a]) with a in H. subst a.
    rewrite (contains_app b "_" (join "_" (b2 :: l2))) in Ha. discriminate.
  - rewrite join_cons2 in H. change (join "_" [b]) with b in H. subst b.
    rewrite (contains_app a "_" (join "_" (a2 :: l1))) in Hb. discriminate.
  - rewrite !join_cons2 in H.
    destruct (underscore_splits _ _ _ _ Ha Hb H) as [-> Hrest].
    f_equal. apply IH; auto; discriminate.
Qed.

Section Builders.

Context {P : Platform}.

Local Notation "p </> child" := (joinpath p child)
  (at level 40, left associativity).

(** ** Which calls a builder makes *)

Lemma emits_ret allowed {A} (a : A) : emits allowed (ret a).
Proof. intros s. exists []. rewrite app_nil_r. split; [reflexivity|constructor]. Qed.

Lemma emits_bind allowed {A B} (m : io state A) (k : A → io state B) :
  emits allowed m → (∀ a, emits allowed (k a)) → emits allowed (bind m k).
Proof.
  intros Hm Hk s. unfold bind. destruct (Hm s) as (new1 & Hcalls1 & Hall1).
  destruct (m s) as [[a|e] s1]; cbn in Hcalls1.
  - destruct (Hk a s1) as (new2 & Hcalls2 & Hall2).
    exists (new1 ++ new2)%list. rewrite Hcalls2, Hcalls1, app_assoc.
    split; [reflexivity|]. apply Forall_app. auto.
  - exists new1. auto.
Qed.

Lemma emits_external allowed {A} c (f : World → result A * World) :
  allowed c = true → emits allowed (external c f).
Proof.
  intros Hc s. unfold external. destruct (f (world s)) as [r w]. cbn.
  exists [(c, raised r)]. split; [reflexivity|]. repeat constructor. exact Hc.
Qed.

Lemma emits_fresh_uuid allowed :
  allowed Uuid4 = true → emits allowed fresh_uuid.
Proof.
  intros Hc s. unfold fresh_uuid. destruct (uuid4 (world s)) as [u w]. cbn.
  exists [(Uuid4, None)]. split; [reflexivity|]. repeat constructor. exact Hc.
Qed.

Lemma emits_path_is_file allowed p :
  allowed (IsFile p) = true → emits allowed (path_is_file p).
Proof.
  intros Hc s. unfold path_is_file. cbn.
  exists [(IsFile p, None)]. split; [reflexivity|]. repeat constructor.
  exact Hc.
Qed.

Lemma emits_for_each allowed {A B} (body : B → A → io state B) xs :
  (∀ acc x, emits allowed (body acc x)) →
  ∀ acc, emits allowed (for_each body xs acc).
Proof.
  intros Hbody. induction xs as [|x xs IH]; intros acc; cbn [for_each].
  - apply emits_ret.
  - apply emits_bind; [apply Hbody|exact IH].
Qed.

Lemma emits_dict_comprehension allowed {V} (build : V → io state Path)
    labels :
  (∀ v, emits allowed (build v)) →
  emits allowed (dict_comprehension build labels).
Proof.
  intros Hbuild. unfold dict_comprehension.
  apply emits_for_each. intros acc [label v].
  apply emits_bind; [apply Hbuild|]. intros p. apply emits_ret.
Qed.

Ltac emits_steps :=
  cbv zeta;
  repeat lazymatch goal with
  | |- emits _ (bind _ _) => apply emits_bind; [|intros ?; cbv zeta]
  | |- emits _ (ret _) => apply emits_ret
  | |- emits _ (shell _) => apply emits_external; reflexivity
  | |- emits _ (external _ _) => apply emits_external; reflexivity
  | |- emits _ fresh_uuid => apply emits_fresh_uuid; reflexivity
  | |- emits _ (path_is_file _) => apply emits_path_is_file; reflexivity
  | |- emits _ (if ?b then _ else _) => destruct b
  end.

Lemma emits_create_aseg_surfaces sd dest :
  emits (λ c, negb (mesh_call c)) (create_aseg_surfaces sd dest).
Proof.
  apply emits_dict_comprehension. intros idx.
  unfold create_aseg_surface. emits_steps.
Qed.

Lemma emits_create_cereb_surfaces sd dest :
  emits (λ c, negb (mesh_call c)) (create_cereb_surfaces sd dest).
Proof.
  apply emits_dict_comprehension. intros idx.
  unfold create_cereb_surface. emits_steps.
Qed.

Lemma emits_create_cortical_surfaces sd dest :
  emits mesh_call (create_cortical_surfaces sd dest).
Proof.
  apply emits_dict_comprehension. intros name.
  unfold surf_to_vtk. emits_steps.
Qed.

(** X7: the builders from a segmentation volume never read or write a mesh
    through [lapy]; the cortical builder makes no other call: it runs no
    shell command, draws no uuid, tests no file; and with [skip_cortex]
    [create_surfaces] reads and writes no mesh. This holds of runs that
    return and of runs that raise. *)
Theorem builders_keep_to_their_tools sd dest sb :
  emits (λ c, negb (mesh_call c)) (create_aseg_surfaces sd dest)
  ∧ emits (λ c, negb (mesh_call c)) (create_cereb_surfaces sd dest)
  ∧ emits mesh_call (create_cortical_surfaces sd dest)
  ∧ emits (λ c, negb (mesh_call c)) (create_surfaces sd dest true sb).
Proof.
  split; [apply emits_create_aseg_surfaces|].
  split; [apply emits_create_cereb_surfaces|].
  split; [apply emits_create_cortical_surfaces|].
  unfold create_surfaces.
  apply emits_bind; [apply emits_create_aseg_surfaces|intros m1].
  apply emits_bind.
  { destruct (negb sb); [|apply emits_ret].
    apply emits_bind; [apply emits_create_cereb_surfaces|].
    intros ?. apply emits_ret. }
  intros m2. cbn [negb]. apply emits_bind; [apply emits_ret|].
  intros m3. apply emits_ret.
Qed.

(** ** The cortical builder *)

Lemma external_Ok_inv {A} c (f : World → result A * World) s a s' :
  external c f s = (Ok a, s') →
  s' = State (f (world s)).2 (calls s ++ [(c, None)])%list.
Proof.
  unfold external. destruct (f (world s)) as [[a'|e] w]; [|discriminate].
  intros [= <- <-]. reflexivity.
Qed.

Lemma surf_to_vtk_Ok_calls source destination s p s' :
  surf_to_vtk source destination s = (Ok p, s') →
  p = destination
  ∧ calls s'
    = (calls s
       ++ [(ReadFssurf source, None); (WriteVtk destination, None)])%list.
Proof.
  intros H. unfold surf_to_vtk in H.
  apply bind_Ok_inv in H as (mesh & s1 & H1 & H).
  apply external_Ok_inv in H1 as ->.
  apply bind_Ok_inv in H as (u & s2 & H2 & H).
  apply external_Ok_inv in H2 as ->.
  apply ret_Ok_inv in H as [-> ->]. cbn [calls].
  rewrite <- app_assoc. auto.
Qed.

(** X8: a [create_cortical_surfaces] that returns has, for [lh.white],
    [rh.white], [lh.pial] and [rh.pial] in this order, read
    [subject_dir/surf/<name>] and then written
    [destination/surfaces/<name>.vtk], and made no other call; it returns
    the four written paths under the labels [lh-white-2d], [rh-white-2d],
    [lh-pial-2d] and [rh-pial-2d]. *)
Theorem cortical_surfaces_are_converted_in_order sd dest s m s' :
  create_cortical_surfaces sd dest s = (Ok m, s') →
  calls s'
  = (calls s
     ++ [ (ReadFssurf (sd </> "surf" </> "lh.white"), None);
          (WriteVtk (dest </> "surfaces" </> "lh.white.vtk"), None);
          (ReadFssurf (sd </> "surf" </> "rh.white"), None);
          (WriteVtk (dest </> "surfaces" </> "rh.white.vtk"), None);
          (ReadFssurf (sd </> "surf" </> "lh.pial"), None);
          (WriteVtk (dest </> "surfaces" </> "lh.pial.vtk"), None);
          (ReadFssurf (sd </> "surf" </> "rh.pial"), None);
          (WriteVtk (dest </> "surfaces" </> "rh.pial.vtk"), None) ])%list
  ∧ m = <["rh-pial-2d" := dest </> "surfaces" </> "rh.pial.vtk"]>
          (<["lh-pial-2d" := dest </> "surfaces" </> "lh.pial.vtk"]>
             (<["rh-white-2d" := dest </> "surfaces" </> "rh.white.vtk"]>
                (<["lh-white-2d" := dest </> "surfaces" </> "lh.white.vtk"]>
                   ∅))).
Proof.
  intros H. unfold create_cortical_surfaces, dict_comprehension in H.
  cbn [for_each cortical_labels] in H.
  repeat match type of H with
  | bind _ _ _ = _ =>
      let a := fresh "a" in
      let s1 := fresh "s" in
      let H1 := fresh "H" in
      apply bind_Ok_inv in H as (a & s1 & H1 & H);
      apply bind_Ok_inv in H1 as (? & ? & ?%surf_to_vtk_Ok_calls & H1);
      apply ret_Ok_inv in H1 as [-> ->]
  end.
  apply ret_Ok_inv in H as [-> ->].
  repeat match goal with
  | Hc : _ = _ ∧ calls _ = _ |- _ => destruct Hc as [-> Hc]
  end.
  split; [|reflexivity].
  repeat match goal with
  | Hc : calls _ = _ |- _ => rewrite Hc; clear Hc
  end.
  rewrite <- !app_assoc. reflexivity.
Qed.

(** ** The merged dictionary of [create_surfaces] *)

Lemma comprehended_dom {V} (f : V → Path) labels :
  ∀ acc, dom (comprehended f labels acc)
         = dom acc ∪ list_to_set labels.*1.
Proof.
  induction labels as [|[k v] labels IH]; intros acc.
  - cbn. rewrite union_empty_r_L. reflexivity.
  - rewrite comprehended_cons, IH, dom_insert_L, fmap_cons,
      list_to_set_cons.
    cbn [fst]. rewrite (union_comm_L {[k]} (dom acc)), (assoc_L (∪)).
    reflexivity.
Qed.

Lemma dict_comprehension_Ok {V} (build : V → io state Path) (f : V → Path)
    labels s m s' :
  (∀ v s p s', build v s = (Ok p, s') → p = f v) →
  dict_comprehension build labels s = (Ok m, s') →
  m = comprehended f labels ∅.
Proof.
  intros Hbuild Hrun. unfold dict_comprehension in Hrun.
  apply (for_each_comprehended build f labels Hbuild) in Hrun. exact Hrun.
Qed.

Lemma dict_comprehension_returns {V} (build : V → io state Path) labels :
  (∀ v s, ∃ p s', build v s = (Ok p, s')) →
  ∀ s, ∃ m s', dict_comprehension build labels s = (Ok m, s').
Proof.
  intros Hbuild. unfold dict_comprehension. generalize (∅ : gmap string Path).
  induction labels as [|[k v] labels IH]; intros acc s; cbn [for_each].
  - unfold ret. eauto.
  - unfold bind at 1. unfold bind at 1.
    destruct (Hbuild v s) as (p & s1 & ->). cbn. apply IH.
Qed.

(** The dictionary [create_surfaces] returns, as a union of the three. *)
Lemma create_surfaces_Ok sd dest sc sb s m s' :
  create_surfaces sd dest sc sb s = (Ok m, s') →
  m = (if sc then ∅ else comprehended (cortical_file dest) cortical_labels ∅)
      ∪ ((if sb then ∅ else comprehended (cereb_file dest) cereb_labels ∅)
         ∪ comprehended (aseg_file dest) aseg_labels ∅).
Proof.
  intros H. unfold create_surfaces in H.
  apply bind_Ok_inv in H as (ma & s1 & Ha & H).
  apply (dict_comprehension_Ok _ (aseg_file dest)) in Ha as ->.
  2:{ intros v s0 p s0' Hp. apply (create_aseg_surface_Ok _ _ _ _ _ _ Hp). }
  apply bind_Ok_inv in H as (mb & s2 & Hb & H).
  apply bind_Ok_inv in H as (mc & s3 & Hc & H).
  apply ret_Ok_inv in H as [-> _].
  assert (Hmb : mb = (if sb then ∅
                      else comprehended (cereb_file dest) cereb_labels ∅)
                     ∪ comprehended (aseg_file dest) aseg_labels ∅).
  { destruct sb; cbn [negb] in Hb.
    - apply ret_Ok_inv in Hb as [-> _]. rewrite (left_id_L ∅ (∪)).
      reflexivity.
    - apply bind_Ok_inv in Hb as (m0 & s0 & Hb0 & Hb).
      apply ret_Ok_inv in Hb as [-> _].
      apply (dict_comprehension_Ok _ (cereb_file dest)) in Hb0 as ->;
        [reflexivity|].
      intros v s4 p s4' Hp. apply (create_cereb_surface_Ok _ _ _ _ _ _ Hp). }
  subst mb. destruct sc; cbn [negb] in Hc.
  - apply ret_Ok_inv in Hc as [-> _]. rewrite (left_id_L ∅ (∪)). reflexivity.
  - apply bind_Ok_inv in Hc as (m0 & s0 & Hc0 & Hc).
    apply ret_Ok_inv in Hc as [-> _].
    apply (dict_comprehension_Ok _ (cortical_file dest)) in Hc0 as ->;
      [reflexivity|].
    intros v s4 p s4' Hp. apply (surf_to_vtk_Ok _ _ _ _ _ Hp).
Qed.

Lemma comprehended_None {V} (f : V → Path) labels k :
  k ∉ labels.*1 → comprehended f labels ∅ !! k = None.
Proof. intros Hk. rewrite (comprehended_frame f labels ∅ k Hk). apply lookup_empty. Qed.

Lemma labels_disjoint :
  (∀ k, k ∈ aseg_labels.*1 →
        (k ∉ cereb_labels.*1) ∧ (k ∉ cortical_labels.*1))
  ∧ (∀ k, k ∈ cereb_labels.*1 → k ∉ cortical_labels.*1).
Proof.
  pose proof all_labels_nodup as Hnd.
  apply NoDup_app in Hnd as (_ & Hac & Hnd).
  apply NoDup_app in Hnd as (_ & Hcc & _).
  split.
  - intros k Hk. specialize (Hac k Hk). rewrite elem_of_app in Hac. tauto.
  - exact Hcc.
Qed.

Lemma create_surfaces_entries sd dest sc sb s m s' :
  create_surfaces sd dest sc sb s = (Ok m, s') →
  (∀ label codes, (label, codes) ∈ aseg_labels →
     m !! label = Some (aseg_file dest codes))
  ∧ (sb = false → ∀ label codes, (label, codes) ∈ cereb_labels →
       m !! label = Some (cereb_file dest codes))
  ∧ (sc = false → ∀ label name, (label, name) ∈ cortical_labels →
       m !! label = Some (cortical_file dest name))
  ∧ dom m
    = list_to_set
        (aseg_labels.*1 ++ (if sb then [] else cereb_labels.*1)
         ++ (if sc then [] else cortical_labels.*1))
  ∧ size m = 30 + (if sb then 0 else 26) + (if sc then 0 else 4).
Proof.
  intros H. apply create_surfaces_Ok in H as ->.
  destruct labels_disjoint as [Hac Hcc].
  assert (Hcort : ∀ k, k ∉ cortical_labels.*1 →
            (if sc then (∅ : gmap string Path)
             else comprehended (cortical_file dest) cortical_labels ∅) !! k
            = None).
  { intros k Hk. destruct sc; [apply lookup_empty|].
    apply comprehended_None. exact Hk. }
  assert (Hcereb : ∀ k, k ∉ cereb_labels.*1 →
            (if sb then (∅ : gmap string Path)
             else comprehended (cereb_file dest) cereb_labels ∅) !! k
            = None).
  { intros k Hk. destruct sb; [apply lookup_empty|].
    apply comprehended_None. exact Hk. }
  assert (Hdom :
    dom ((if sc then (∅ : gmap string Path)
          else comprehended (cortical_file dest) cortical_labels ∅)
         ∪ ((if sb then (∅ : gmap string Path)
             else comprehended (cereb_file dest) cereb_labels ∅)
            ∪ comprehended (aseg_file dest) aseg_labels ∅))
    = list_to_set
        (aseg_labels.*1 ++ (if sb then [] else cereb_labels.*1)
         ++ (if sc then [] else cortical_labels.*1))).
  { rewrite !dom_union_L, !list_to_set_app_L, comprehended_dom.
    rewrite dom_empty_L, (left_id_L ∅ (∪)).
    assert (Hb : dom (if sb then (∅ : gmap string Path)
                      else comprehended (cereb_file dest) cereb_labels ∅)
                 = list_to_set (if sb then [] else cereb_labels.*1)).
    { destruct sb; [apply dom_empty_L|].
      rewrite comprehended_dom, dom_empty_L, (left_id_L ∅ (∪)). reflexivity. }
    assert (Hc : dom (if sc then (∅ : gmap string Path)
                      else comprehended (cortical_file dest)
                             cortical_labels ∅)
                 = list_to_set (if sc then [] else cortical_labels.*1)).
    { destruct sc; [apply dom_empty_L|].
      rewrite comprehended_dom, dom_empty_L, (left_id_L ∅ (∪)). reflexivity. }
    rewrite Hb, Hc. apply union_rotate. }
  split; [|split; [|split; [|split]]].
  - intros label codes Hin.
    assert (Hk : label ∈ aseg_labels.*1).
    { apply list_elem_of_fmap. exists (label, codes). auto. }
    destruct (Hac label Hk) as [Hnb Hnc].
    rewrite (lookup_union_r _ _ _ (Hcort label Hnc)).
    rewrite (lookup_union_r _ _ _ (Hcereb label Hnb)).
    apply comprehended_lookup; [apply aseg_labels_nodup|exact Hin].
  - intros -> label codes Hin.
    assert (Hk : label ∈ cereb_labels.*1).
    { apply list_elem_of_fmap. exists (label, codes). auto. }
    rewrite (lookup_union_r _ _ _ (Hcort label (Hcc label Hk))).
    apply lookup_union_Some_l.
    apply comprehended_lookup; [apply cereb_labels_nodup|exact Hin].
  - intros -> label name Hin.
    apply lookup_union_Some_l.
    apply comprehended_lookup; [apply cortical_labels_nodup|exact Hin].
  - exact Hdom.
  - rewrite <- size_dom, Hdom, size_list_to_set.
    + destruct sb, sc; reflexivity.
    + pose proof all_labels_nodup as Hnd. destruct sb, sc; cbn [app].
      * rewrite !app_nil_r. apply aseg_labels_nodup.
      * apply NoDup_app in Hnd as (Ha & Hd & Hnd).
        apply NoDup_app in Hnd as (_ & _ & Hc).
        apply NoDup_app. split; [exact Ha|]. split; [|exact Hc].
        intros k Hk. specialize (Hd k Hk). rewrite elem_of_app in Hd. tauto.
      * rewrite app_nil_r. apply NoDup_app in Hnd as (Ha & Hd & Hnd).
        apply NoDup_app in Hnd as (Hb & _ & _).
        apply NoDup_app. split; [exact Ha|]. split; [|exact Hb].
        intros k Hk. specialize (Hd k Hk). rewrite elem_of_app in Hd. tauto.
      * exact Hnd.
Qed.

Lemma surf_to_vtk_returns source destination s :
  (∀ p w, ∃ mesh, (read_fssurf p w).1 = Ok mesh) →
  (∀ mesh p w, (write_vtk mesh p w).1 = Ok tt) →
  ∃ p s', surf_to_vtk source destination s = (Ok p, s').
Proof.
  intros Hread Hwrite. unfold surf_to_vtk, bind, external, ret.
  destruct (Hread source (world s)) as [mesh Hm].
  destruct (read_fssurf source (world s)) as [r w]. cbn in Hm. subst r.
  cbn [world calls].
  pose proof (Hwrite mesh destination w) as Hw.
  destruct (write_vtk mesh destination w) as [r w']. cbn in Hw. subst r.
  eauto.
Qed.

Lemma create_surfaces_returns sd dest sc sb s :
  (∀ command w, (run_shell_command command w).1 = Ok tt) →
  (∀ p w, ∃ mesh, (read_fssurf p w).1 = Ok mesh) →
  (∀ mesh p w, (write_vtk mesh p w).1 = Ok tt) →
  ∃ m s', create_surfaces sd dest sc sb s = (Ok m, s').
Proof.
  intros Hshell Hread Hwrite. unfold create_surfaces.
  assert (Ha : ∀ s0, ∃ m s', create_aseg_surfaces sd dest s0 = (Ok m, s')).
  { apply dict_comprehension_returns. intros v s0.
    apply (create_surface_returns sd dest v s0 Hshell). }
  assert (Hb : ∀ s0, ∃ m s', create_cereb_surfaces sd dest s0 = (Ok m, s')).
  { apply dict_comprehension_returns. intros v s0.
    apply (create_surface_returns sd dest v s0 Hshell). }
  assert (Hc : ∀ s0,
            ∃ m s', create_cortical_surfaces sd dest s0 = (Ok m, s')).
  { apply dict_comprehension_returns. intros v s0.
    apply surf_to_vtk_returns; assumption. }
  unfold bind. destruct (Ha s) as (ma & s1 & ->).
  destruct sb; cbn [negb]; unfold ret at 1.
  - destruct sc; cbn [negb]; unfold ret.
    + eauto.
    + destruct (Hc s1) as (mc & s2 & ->). eauto.
  - destruct (Hb s1) as (mb & s2 & ->).
    destruct sc; cbn [negb]; unfold ret.
    + eauto.
    + destruct (Hc s2) as (mc & s3 & ->). eauto.
Qed.

(** X9: the dictionary a returning [create_surfaces] returns has the file
    of every label of [aseg_labels], of every label of [cereb_labels]
    unless [skip_cerebellum], and of every label of [cortical_labels]
    unless [skip_cortex]; these are all its keys, 30 + 26 + 4 of them: no
    label of one catalogue is a label of another, so [update] overwrites
    nothing. It returns when no call fails. *)
Theorem merged_surfaces_hold_every_catalogue sd dest sc sb s :
  (∀ m s',
     create_surfaces sd dest sc sb s = (Ok m, s') →
     (∀ label codes, (label, codes) ∈ aseg_labels →
        m !! label = Some (aseg_file dest codes))
     ∧ (sb = false → ∀ label codes, (label, codes) ∈ cereb_labels →
          m !! label = Some (cereb_file dest codes))
     ∧ (sc = false → ∀ label name, (label, name) ∈ cortical_labels →
          m !! label = Some (cortical_file dest name))
     ∧ dom m
       = list_to_set
           (aseg_labels.*1 ++ (if sb then [] else cereb_labels.*1)
            ++ (if sc then [] else cortical_labels.*1))
     ∧ size m = 30 + (if sb then 0 else 26) + (if sc then 0 else 4))
  ∧ ((∀ command w, (run_shell_command command w).1 = Ok tt) →
     (∀ p w, ∃ mesh, (read_fssurf p w).1 = Ok mesh) →
     (∀ mesh p w, (write_vtk mesh p w).1 = Ok tt) →
     ∃ m s', create_surfaces sd dest sc sb s = (Ok m, s')).
Proof.
  split.
  - intros m s' Hrun. exact (create_surfaces_entries sd dest sc sb s m s' Hrun).
  - apply create_surfaces_returns.
Qed.

(** X10: where [destination / child] determines [child], a returning
    [create_surfaces] gives no two structures taken from a segmentation
    volume the same file: the surface of one never overwrites the surface of
    another. *)
Theorem volumetric_surfaces_have_distinct_files sd dest sc sb s m s'
    k1 k2 p :
  (∀ a b, dest </> a = dest </> b → a = b) →
  create_surfaces sd dest sc sb s = (Ok m, s') →
  k1 ∈ (aseg_labels.*1 ++ cereb_labels.*1)%list →
  k2 ∈ (aseg_labels.*1 ++ cereb_labels.*1)%list →
  m !! k1 = Some p → m !! k2 = Some p →
  k1 = k2.
Proof.
  intros Hinj Hrun Hk1 Hk2 Hp1 Hp2.
  destruct (create_surfaces_entries sd dest sc sb s m s' Hrun)
    as (Ha & Hb & _ & Hdom & _).
  assert (Hfile : ∀ k, k ∈ (aseg_labels.*1 ++ cereb_labels.*1)%list →
            m !! k = Some p →
            ∃ rel, (k, rel) ∈ volumetric_files ∧ p = dest </> rel).
  { intros k Hk Hp. apply elem_of_app in Hk as [Hk|Hk].
    - apply elem_of_keys in Hk as [codes Hin].
      rewrite (Ha k codes Hin) in Hp. injection Hp as <-.
      eexists. split; [|reflexivity]. unfold volumetric_files.
      apply elem_of_app. left.
      apply list_elem_of_fmap. exists (k, codes). auto.
    - destruct sb.
      + assert (Hd : k ∈ dom m) by (apply elem_of_dom; eauto).
        rewrite Hdom in Hd. apply elem_of_list_to_set in Hd.
        cbn [app] in Hd. apply elem_of_app in Hd as [Hd|Hd].
        * destruct (proj1 labels_disjoint k Hd) as [Hn _]. contradiction.
        * destruct sc; [inversion Hd|].
          destruct (proj2 labels_disjoint k Hk Hd).
      + apply elem_of_keys in Hk as [codes Hin].
        rewrite (Hb eq_refl k codes Hin) in Hp. injection Hp as <-.
        eexists. split; [|reflexivity]. unfold volumetric_files.
        apply elem_of_app. right.
        apply list_elem_of_fmap. exists (k, codes). auto. }
  destruct (Hfile k1 Hk1 Hp1) as (rel1 & Hin1 & ->).
  destruct (Hfile k2 Hk2 Hp2) as (rel2 & Hin2 & Heq).
  apply Hinj in Heq as ->.
  exact (NoDup_snd_inj volumetric_files k1 k2 rel2 volumetric_files_nodup
           Hin1 Hin2).
Qed.

(** X12: where [destination / child] determines [child], two runs of
    [create_aseg_surface] (and of [create_cereb_surface]) that return the
    same file were given the same label codes, as long as the code lists
    are not empty and no code contains an underscore: different code lists
    never share a file. *)
Theorem distinct_codes_give_distinct_files sd1 sd2 dest idx1 idx2
    s1 s2 p s1' s2' :
  (∀ a b, dest </> a = dest </> b → a = b) →
  Forall (λ code, contains "_" code = false) idx1 →
  Forall (λ code, contains "_" code = false) idx2 →
  idx1 ≠ [] → idx2 ≠ [] →
  (create_aseg_surface sd1 dest idx1 s1 = (Ok p, s1') →
   create_aseg_surface sd2 dest idx2 s2 = (Ok p, s2') →
   idx1 = idx2)
  ∧ (create_cereb_surface sd1 dest idx1 s1 = (Ok p, s1') →
     create_cereb_surface sd2 dest idx2 s2 = (Ok p, s2') →
     idx1 = idx2).
Proof.
  intros Hinj H1 H2 Hn1 Hn2. split; intros Hrun1 Hrun2.
  - apply create_aseg_surface_Ok in Hrun1 as [Hp1 _].
    apply create_aseg_surface_Ok in Hrun2 as [Hp2 _].
    rewrite Hp1 in Hp2. apply Hinj in Hp2.
    apply string_app_cancel_l, string_app_cancel_r in Hp2.
    apply join_underscore_inj; assumption.
  - apply create_cereb_surface_Ok in Hrun1 as [Hp1 _].
    apply create_cereb_surface_Ok in Hrun2 as [Hp2 _].
    rewrite Hp1 in Hp2. apply Hinj in Hp2.
    apply string_app_cancel_l, string_app_cancel_r in Hp2.
    apply join_underscore_inj; assumption.
Qed.

(** X13: within one structure, a call that raises is the last call: a
    failed binarisation is followed by no refinement, marching cubes or
    conversion, a failed mesh read by no write, and the function raises
    that exception; likewise for the cortical builder as a whole. *)
Theorem one_extraction_aborts_at_first_failure sd dest idx source
    destination :
  aborts_at_first_failure (create_aseg_surface sd dest idx)
  ∧ aborts_at_first_failure (create_cereb_surface sd dest idx)
  ∧ aborts_at_first_failure (surf_to_vtk source destination)
  ∧ aborts_at_first_failure (create_cortical_surfaces sd dest).
Proof.
  split; [|split; [|split]]; intros w pre c e post;
    apply failstop_first_failure_is_last.
  - apply failstop_create_aseg_surface.
  - apply failstop_create_cereb_surface.
  - apply failstop_surf_to_vtk.
  - apply failstop_create_cortical_surfaces.
Qed.

End Builders.

(** ** Reading a mesh back *)

Section ReadVtk.

Context {P : Platform}.
Variable tria_read_vtk : Path -> World -> result (option Mesh) * World.

(** X11: [read_vtk] returns the mesh [TriaMesh.read_vtk] returned, when it
    returned one; when it raised, whatever the exception, or returned
    [None], [read_vtk] raises a [RuntimeError] whose message holds the
    path. *)
Theorem read_vtk_fails_with_the_path path w :
  match tria_read_vtk path w with
  | (Ok (Some mesh), w') =>
      read_vtk tria_read_vtk path w = (Ok mesh, w')
  | (_, w') =>
      ∃ message,
        read_vtk tria_read_vtk path w = (Raise (RuntimeError message), w')
        ∧ contains (path_str path) message = true
  end.
Proof.
  unfold read_vtk.
  destruct (tria_read_vtk path w) as [[[mesh|]|e] w']; cbv zeta;
    [reflexivity| |];
    (eexists; split; [reflexivity|apply contains_app]).
Qed.

End ReadVtk.

(** ** Concrete runs *)

Import Examples MoreExamples.

Lemma all_good_never_fails :
  (∀ command w, (@run_shell_command all_good command w).1 = Ok tt)
  ∧ (∀ p w, ∃ mesh, (@read_fssurf all_good p w).1 = Ok mesh)
  ∧ (∀ mesh p w, (@write_vtk all_good mesh p w).1 = Ok tt).
Proof.
  split; [reflexivity|]. split; [|reflexivity].
  intros p w. exists tt. reflexivity.
Qed.

Lemma cortical_surfaces_are_converted_in_order_witness :
  ∃ m s',
    @create_cortical_surfaces all_good "/subjects/s1" "/out"
      (@start all_good 0)
    = (Ok m, s')
    ∧ @calls all_good s'
      = [ (@ReadFssurf all_good "/subjects/s1/surf/lh.white", None);
          (@WriteVtk all_good "/out/surfaces/lh.white.vtk", None);
          (@ReadFssurf all_good "/subjects/s1/surf/rh.white", None);
          (@WriteVtk all_good "/out/surfaces/rh.white.vtk", None);
          (@ReadFssurf all_good "/subjects/s1/surf/lh.pial", None);
          (@WriteVtk all_good "/out/surfaces/lh.pial.vtk", None);
          (@ReadFssurf all_good "/subjects/s1/surf/rh.pial", None);
          (@WriteVtk all_good "/out/surfaces/rh.pial.vtk", None) ].
Proof.
  destruct (@create_cortical_surfaces all_good "/subjects/s1" "/out"
              (@start all_good 0)) as [r s'] eqn:Hrun.
  assert (Hok : match r with Ok _ => true | Raise _ => false end = true).
  { pose proof (f_equal fst Hrun) as H. cbn [fst] in H. rewrite <- H.
    vm_compute. reflexivity. }
  destruct r as [m|e]; [|discriminate].
  destruct (@cortical_surfaces_are_converted_in_order all_good _ _ _ _ _
              Hrun) as [Hcalls _].
  exists m, s'. split; [reflexivity|]. rewrite Hcalls. reflexivity.
Defined.

Lemma merged_surfaces_hold_every_catalogue_witness :
  ∃ m s',
    @create_surfaces all_good "/subjects/s1" "/out" false false
      (@start all_good 0)
    = (Ok m, s')
    ∧ size m = 60
    ∧ m !! "Brain-Stem" = Some "/out/surfaces/aseg.final.16.vtk"
    ∧ m !! "Cbm_Vermis"
      = Some "/out/surfaces/cereb.final.631_630_627_624_606.vtk"
    ∧ m !! "rh-pial-2d" = Some "/out/surfaces/rh.pial.vtk".
Proof.
  destruct (@merged_surfaces_hold_every_catalogue all_good "/subjects/s1"
              "/out" false false (@start all_good 0)) as [Hentries Hreturns].
  destruct all_good_never_fails as (Hshell & Hread & Hwrite).
  destruct (Hreturns Hshell Hread Hwrite) as (m & s' & Hrun).
  destruct (Hentries m s' Hrun) as (Ha & Hb & Hc & _ & Hsize).
  exists m, s'. split; [exact Hrun|]. split; [exact Hsize|].
  split; [|split].
  - apply (Ha "Brain-Stem" ["16"]). compute_done.
  - apply (Hb eq_refl "Cbm_Vermis" ["631"; "630"; "627"; "624"; "606"]).
    compute_done.
  - apply (Hc eq_refl "rh-pial-2d" "rh.pial"). compute_done.
Defined.

Lemma volumetric_surfaces_have_distinct_files_witness :
  ∃ m s',
    @create_surfaces all_good "/subjects/s1" "/out" false false
      (@start all_good 0)
    = (Ok m, s')
    ∧ ∀ k, k ∈ (aseg_labels.*1 ++ cereb_labels.*1)%list →
        m !! k = Some "/out/surfaces/aseg.final.16.vtk" →
        k = "Brain-Stem".
Proof.
  destruct all_good_never_fails as (Hshell & Hread & Hwrite).
  destruct (@create_surfaces_returns all_good "/subjects/s1" "/out" false
              false (@start all_good 0) Hshell Hread Hwrite)
    as (m & s' & Hrun).
  exists m, s'. split; [exact Hrun|]. intros k Hk Hp.
  apply (@volumetric_surfaces_have_distinct_files all_good "/subjects/s1"
           "/out" false false (@start all_good 0) m s' k "Brain-Stem"
           "/out/surfaces/aseg.final.16.vtk").
  - intros a b Hab. vm_compute in Hab. congruence.
  - exact Hrun.
  - exact Hk.
  - compute_done.
  - exact Hp.
  - apply (proj1 (@create_surfaces_entries all_good _ _ _ _ _ _ _ Hrun)
             "Brain-Stem" ["16"]).
    compute_done.
Defined.

Lemma distinct_codes_give_distinct_files_witness :
  ∃ s1' s2',
    @create_aseg_surface all_good "/subjects/s1" "/out" ["11"; "12"; "26"]
      (@start all_good 0)
    = (Ok "/out/surfaces/aseg.final.11_12_26.vtk", s1')
    ∧ @create_aseg_surface all_good "/subjects/s2" "/out" ["11"; "12"; "26"]
        (@start all_good 7)
      = (Ok "/out/surfaces/aseg.final.11_12_26.vtk", s2')
    ∧ ["11"; "12"; "26"] = ["11"; "12"; "26"].
Proof.
  destruct (@create_aseg_surface all_good "/subjects/s1" "/out"
              ["11"; "12"; "26"] (@start all_good 0)) as [r1 s1'] eqn:Hrun1.
  destruct (@create_aseg_surface all_good "/subjects/s2" "/out"
              ["11"; "12"; "26"] (@start all_good 7)) as [r2 s2'] eqn:Hrun2.
  assert (Hr1 : r1 = Ok "/out/surfaces/aseg.final.11_12_26.vtk").
  { pose proof (f_equal fst Hrun1) as H. cbn [fst] in H. rewrite <- H.
    vm_compute. reflexivity. }
  assert (Hr2 : r2 = Ok "/out/surfaces/aseg.final.11_12_26.vtk").
  { pose proof (f_equal fst Hrun2) as H. cbn [fst] in H. rewrite <- H.
    vm_compute. reflexivity. }
  subst r1 r2. exists s1', s2'. split; [reflexivity|]. split; [reflexivity|].
  apply (proj1 (@distinct_codes_give_distinct_files all_good
                  "/subjects/s1" "/subjects/s2" "/out"
                  ["11"; "12"; "26"] ["11"; "12"; "26"]
                  (@start all_good 0) (@start all_good 7)
                  "/out/surfaces/aseg.final.11_12_26.vtk" s1' s2'
                  ltac:(intros a b Hab; vm_compute in Hab; congruence)
                  ltac:(compute_done) ltac:(compute_done)
                  ltac:(discriminate) ltac:(discriminate))
           Hrun1 Hrun2).
Defined.

(** Codes with an underscore do collide: the guarantee needs its premise. *)
Example underscore_codes_collide :
  join "_" ["1_2"] = join "_" ["1"; "2"].
Proof. reflexivity. Qed.

Lemma one_extraction_aborts_at_first_failure_witness :
  (@create_aseg_surface brain_stem_fails "/subjects/s1" "/out" ["16"]
     (@start brain_stem_fails 0)).1
  = Raise (RuntimeError
             ("mri_binarize --i /subjects/s1/mri/aseg.mgz --match 16"
              +:+ " --o /out/temp/aseg.0.mgz"))
  ∧ @calls brain_stem_fails
      (@create_aseg_surface brain_stem_fails "/subjects/s1" "/out" ["16"]
         (@start brain_stem_fails 0)).2
    = [ (Uuid4, None);
        (Shell ("mri_binarize --i /subjects/s1/mri/aseg.mgz --match 16"
                +:+ " --o /out/temp/aseg.0.mgz"),
         Some (RuntimeError
                 ("mri_binarize --i /subjects/s1/mri/aseg.mgz --match 16"
                  +:+ " --o /out/temp/aseg.0.mgz"))) ].
Proof.
  split; [|vm_compute; reflexivity].
  refine (proj2
    (proj1 (@one_extraction_aborts_at_first_failure brain_stem_fails
              "/subjects/s1" "/out" ["16"] "/in" "/out")
       0 [(Uuid4, None)]
       (Shell ("mri_binarize --i /subjects/s1/mri/aseg.mgz --match 16"
               +:+ " --o /out/temp/aseg.0.mgz"))
       (RuntimeError
          ("mri_binarize --i /subjects/s1/mri/aseg.mgz --match 16"
           +:+ " --o /out/temp/aseg.0.mgz"))
       [] _)).
  vm_compute. reflexivity.
Defined.

(** The scripted reader at work: a good file, a file without mesh, a file
    that cannot be read. *)
Example read_vtk_three_ways :
  @read_vtk all_good (scripted_read_vtk ["/out/a.vtk"] ["/out/b.vtk"])
    "/out/a.vtk" 0
  = (Ok tt, 1)
  ∧ @read_vtk all_good (scripted_read_vtk ["/out/a.vtk"] ["/out/b.vtk"])
      "/out/b.vtk" 0
    = (Raise (RuntimeError
                "Failed to read VTK from the following path: /out/b.vtk!"),
       1)
  ∧ @read_vtk all_good (scripted_read_vtk ["/out/a.vtk"] ["/out/b.vtk"])
      "/out/c.vtk" 0
    = (Raise (RuntimeError
                "Failed to read VTK from the following path: /out/c.vtk!"),
       1).
Proof. repeat split; vm_compute; reflexivity. Qed.

End BuilderExtras.
